(** * Enhanced Step Recorder: the recording core

    A shallow embedding of [recorder_core.py] (classes [RecordingSession]
    and [StepRecorderCore]) and the properties of its step-segmentation
    state machine.

    Conventions of the embedding.
    - Every method of [StepRecorderCore] is a computation over the
      recorder object: it returns a value or raises, and the mutations it
      performed before raising persist (Python has no rollback).
    - What a method reads from outside the recorder (the clock, the title
      of the foreground window, whether the screen grab raises, whether
      the start of a listener raises) is supplied by an explicit
      environment [Env], one per method call.
    - Method calls are taken one at a time: the listener threads and the
      UI thread are interleaved at the granularity of whole calls.  This
      is a restriction of the embedding and not a guarantee of the class,
      which takes no lock; every property of a run is a property of calls
      that do not overlap in time.
    - Times are integers in microseconds, the resolution of [datetime].
    - Characters are the code points 0..255 (Rocq's [ascii]); for these
      [str.isprintable] is fixed below. *)

From Stdlib Require Import ZArith List String Ascii Bool Lia Arith.
From Stdlib Require Import DecimalString ListSet.
From Stdlib Require Import DecimalNat.
Import ListNotations.

Local Open Scope string_scope.
Local Open Scope nat_scope.

(** ** Python string primitives used by the recorder *)

(** [ord(c)] *)
Definition ord (c : ascii) : nat := nat_of_ascii c.

(** [c.isprintable()] for a single character of the Latin-1 range: the
    C0 and C1 controls, DEL, the no-break space (160) and the soft hyphen
    (173) are not printable. *)
Definition isprintable (c : ascii) : bool :=
  let n := ord c in
  ((32 <=? n) && (n <=? 126)) || ((161 <=? n) && negb (n =? 173)).

(** [str(n)] for a non-negative integer. *)
Definition str_nat (n : nat) : string :=
  NilZero.string_of_uint (Nat.to_uint n).

(** [str(z)] for an integer. *)
Definition str_int (z : Z) : string :=
  NilZero.string_of_int (Z.to_int z).

(** [f"{n:04d}"]: decimal, left-padded with zeros to four characters. *)
Definition fmt_04d (n : nat) : string :=
  let d := str_nat n in
  let fix zeros k := match k with O => "" | S k' => String "0" (zeros k') end in
  zeros (4 - String.length d) ++ d.

(** [s.replace(old, new)] for a non-empty [old]: occurrences are replaced
    left to right without overlap; [skip] counts the characters of the
    occurrence just replaced that are still to be dropped. *)
Fixpoint replace_from (old new : string) (skip : nat) (s : string) : string :=
  match s with
  | EmptyString => EmptyString
  | String c s' =>
      match skip with
      | S k => replace_from old new k s'
      | O =>
          if String.prefix old s
          then new ++ replace_from old new (String.length old - 1) s'
          else String c (replace_from old new 0 s')
      end
  end.

Definition replace (old new s : string) : string := replace_from old new 0 s.

Definition is_lower (c : ascii) : bool := (97 <=? ord c) && (ord c <=? 122).
Definition is_upper (c : ascii) : bool := (65 <=? ord c) && (ord c <=? 90).
Definition to_upper (c : ascii) : ascii :=
  if is_lower c then ascii_of_nat (ord c - 32) else c.
Definition to_lower (c : ascii) : ascii :=
  if is_upper c then ascii_of_nat (ord c + 32) else c.

(** [s.title()]: a letter that follows a letter is lower-cased, any other
    letter is upper-cased.  Letters are the ASCII letters: the strings
    titled by the recorder are [str(key)] of pynput keys, which are ASCII. *)
Fixpoint title_from (prev_cased : bool) (s : string) : string :=
  match s with
  | EmptyString => EmptyString
  | String c s' =>
      if is_lower c || is_upper c
      then String (if prev_cased then to_lower c else to_upper c)
                  (title_from true s')
      else String c (title_from false s')
  end.

Definition title (s : string) : string := title_from false s.

(** [x in xs] for strings. *)
Definition str_in (x : string) (xs : list string) : bool :=
  existsb (String.eqb x) xs.

(** [d.get(k, default)] on a dict literal, kept as its list of items. *)
Fixpoint dict_get (d : list (string * string)) (k default : string) : string :=
  match d with
  | [] => default
  | (k', v) :: d' => if String.eqb k k' then v else dict_get d' k default
  end.

(** ** Keys and buttons delivered by the listeners *)

(** A pynput key as [_key_to_name] sees it: either an object with a
    [char] attribute that is not [None], or anything else (a member of
    [keyboard.Key], a [KeyCode] without character), of which only [str(key)]
    is used: ["Key.enter"], ["Key.ctrl_l"], ["<65437>"]. *)
Inductive Key : Type :=
  | KeyChar (char : ascii)
  | KeyOther (str_key : string).

(** A mouse button; [str(button)] is ["Button.left"] and the like. *)
Record Button : Type := { button_name : string }.

Definition str_button (b : Button) : string := "Button." ++ button_name b.

(** ** Keystroke rendering *)

Definition key_mapping : list (string * string) :=
  [ ("Enter", "Enter"); ("Space", "Space"); ("Tab", "Tab");
    ("Backspace", "Backspace"); ("Delete", "Delete"); ("Escape", "Escape");
    ("Shift", "Shift"); ("Shift_L", "Shift"); ("Shift_R", "Shift");
    ("Ctrl", "Ctrl"); ("Ctrl_L", "Ctrl"); ("Ctrl_R", "Ctrl");
    ("Alt", "Alt"); ("Alt_L", "Alt"); ("Alt_R", "Alt");
    ("Up", "Up Arrow"); ("Down", "Down Arrow");
    ("Left", "Left Arrow"); ("Right", "Right Arrow") ].

(** [StepRecorderCore._key_to_name] *)
Definition _key_to_name (key : Key) : string :=
  match key with
  | KeyChar c =>
      if Ascii.eqb c " " then "Space"
      else if isprintable c then String c ""
      else "Char(" ++ str_nat (ord c) ++ ")"
  | KeyOther s =>
      let key_str := title (replace "'" "" (replace "Key." "" s)) in
      dict_get key_mapping key_str key_str
  end.

(** The characters of the literal ['\t\n\r']. *)
Definition tab_nl_cr : list ascii :=
  [ascii_of_nat 9; ascii_of_nat 10; ascii_of_nat 13].

(** [StepRecorderCore._is_safe_for_xml]: the loop over the characters,
    then the method with its test for the empty text. *)
Fixpoint safe_chars (text : string) : bool :=
  match text with
  | EmptyString => true
  | String char rest =>
      if (ord char <? 32) && negb (existsb (Ascii.eqb char) tab_nl_cr)
      then false
      else if (127 <? ord char) && negb (isprintable char) then false
      else safe_chars rest
  end.

Definition _is_safe_for_xml (text : string) : bool :=
  match text with
  | EmptyString => false
  | _ => safe_chars text
  end.

(** [StepRecorderCore._keystrokes_to_text] *)
Definition _keystrokes_to_text (keystrokes : list Key) : string :=
  let text_parts :=
    flat_map (fun key =>
      let key_name := _key_to_name key in
      if _is_safe_for_xml key_name
         && negb (str_in key_name ["Char(19)"; "Ctrl_L"; "Shift_L"; "Alt_L"])
      then [key_name] else []) keystrokes in
  match text_parts with
  | [] =>
      let special_keys :=
        flat_map (fun key =>
          let key_name := _key_to_name key in
          if str_in key_name
               ["Enter"; "Space"; "Tab"; "Backspace"; "Delete"; "Escape"]
          then [key_name] else []) keystrokes in
      match special_keys with
      | [] => "Special keys pressed"
      | _ => "Pressed: " ++ String.concat ", " special_keys
      end
  | _ => String.concat "" text_parts
  end.

(** ** Data model *)

(** The ['type'] entry of a step dict: ['click'], ['keystroke'], ['note']. *)
Inductive StepType : Type := click | keystroke | note.

Definition StepType_eqb (a b : StepType) : bool :=
  match a, b with
  | click, click | keystroke, keystroke | note, note => true
  | _, _ => false
  end.

(** A step dict.  Entries that a kind of step does not have are [None];
    ['screenshot'] is [None] when the dict holds Python's [None].  The
    source stores [str(k)] for each key of a group under ['keystrokes'];
    the keys themselves are kept here. *)
Module Step.
Record t : Type := mk {
  step_number : nat;
  timestamp : Z;
  type : StepType;
  content : string;
  application : string;
  screenshot : option string;
  coordinates : option (Z * Z);
  button : option string;
  keystrokes : option (list Key)
}.
End Step.

(** [RecordingSession.statistics] *)
Module Statistics.
Record t : Type := mk {
  clicks : nat;
  keystrokes : nat;
  notes : nat;
  applications : set string;
  total_steps : nat;
  recording_duration : Z
}.

Definition zero : t := mk 0 0 0 (empty_set string) 0 0%Z.
End Statistics.

(** [RecordingSession]; the constant [metadata] dict is left out. *)
Module Session.
Record t : Type := mk {
  start_time : option Z;
  end_time : option Z;
  steps : list Step.t;
  screenshots : list string;
  statistics : Statistics.t
}.

(** [RecordingSession.__init__] *)
Definition new : t := mk None None [] [] Statistics.zero.
End Session.

(** An item of [self.queue]: the tuple [("click", x, y, button)], the only
    kind the listeners put. *)
Inductive QueueItem : Type :=
  | QClick (x y : Z) (button : Button).

(** The attributes of a [StepRecorderCore].  A listener attribute is
    [true] when it holds a listener object and [false] when it is [None].
    The three notification callbacks are [None] in the core and are set
    by the user interface only; they are not part of the model. *)
Record StepRecorderCore : Type := mkCore {
  recording : bool;
  paused : bool;
  step : nat;
  start_time : option Z;
  queue : list QueueItem;
  outputs : list string;
  last_click : Z * Z;
  current_keystrokes : list Key;
  last_key_time : Z;
  key_grouping_delay : Z;
  session : Session.t;
  mouse_listener : bool;
  kb_listener : bool;
  timer_running : bool
}.

(** [StepRecorderCore.__init__] *)
Definition __init__ : StepRecorderCore :=
  {| recording := false; paused := false; step := 0; start_time := None;
     queue := []; outputs := []; last_click := (100, 100)%Z;
     current_keystrokes := []; last_key_time := 0%Z;
     key_grouping_delay := 1000%Z; session := Session.new;
     mouse_listener := false; kb_listener := false;
     timer_running := false |}.

(** Attribute assignment, one setter per attribute that is written. *)
Definition set_recording v (r : StepRecorderCore) :=
  mkCore v (paused r) (step r) (start_time r) (queue r) (outputs r)
    (last_click r) (current_keystrokes r) (last_key_time r)
    (key_grouping_delay r) (session r) (mouse_listener r) (kb_listener r)
    (timer_running r).
Definition set_paused v (r : StepRecorderCore) :=
  mkCore (recording r) v (step r) (start_time r) (queue r) (outputs r)
    (last_click r) (current_keystrokes r) (last_key_time r)
    (key_grouping_delay r) (session r) (mouse_listener r) (kb_listener r)
    (timer_running r).
Definition set_step v (r : StepRecorderCore) :=
  mkCore (recording r) (paused r) v (start_time r) (queue r) (outputs r)
    (last_click r) (current_keystrokes r) (last_key_time r)
    (key_grouping_delay r) (session r) (mouse_listener r) (kb_listener r)
    (timer_running r).
Definition set_start_time v (r : StepRecorderCore) :=
  mkCore (recording r) (paused r) (step r) v (queue r) (outputs r)
    (last_click r) (current_keystrokes r) (last_key_time r)
    (key_grouping_delay r) (session r) (mouse_listener r) (kb_listener r)
    (timer_running r).
Definition set_queue v (r : StepRecorderCore) :=
  mkCore (recording r) (paused r) (step r) (start_time r) v (outputs r)
    (last_click r) (current_keystrokes r) (last_key_time r)
    (key_grouping_delay r) (session r) (mouse_listener r) (kb_listener r)
    (timer_running r).
Definition set_outputs v (r : StepRecorderCore) :=
  mkCore (recording r) (paused r) (step r) (start_time r) (queue r) v
    (last_click r) (current_keystrokes r) (last_key_time r)
    (key_grouping_delay r) (session r) (mouse_listener r) (kb_listener r)
    (timer_running r).
Definition set_last_click v (r : StepRecorderCore) :=
  mkCore (recording r) (paused r) (step r) (start_time r) (queue r) (outputs r)
    v (current_keystrokes r) (last_key_time r)
    (key_grouping_delay r) (session r) (mouse_listener r) (kb_listener r)
    (timer_running r).
Definition set_current_keystrokes v (r : StepRecorderCore) :=
  mkCore (recording r) (paused r) (step r) (start_time r) (queue r) (outputs r)
    (last_click r) v (last_key_time r)
    (key_grouping_delay r) (session r) (mouse_listener r) (kb_listener r)
    (timer_running r).
Definition set_last_key_time v (r : StepRecorderCore) :=
  mkCore (recording r) (paused r) (step r) (start_time r) (queue r) (outputs r)
    (last_click r) (current_keystrokes r) v
    (key_grouping_delay r) (session r) (mouse_listener r) (kb_listener r)
    (timer_running r).
Definition set_session v (r : StepRecorderCore) :=
  mkCore (recording r) (paused r) (step r) (start_time r) (queue r) (outputs r)
    (last_click r) (current_keystrokes r) (last_key_time r)
    (key_grouping_delay r) v (mouse_listener r) (kb_listener r)
    (timer_running r).
Definition set_mouse_listener v (r : StepRecorderCore) :=
  mkCore (recording r) (paused r) (step r) (start_time r) (queue r) (outputs r)
    (last_click r) (current_keystrokes r) (last_key_time r)
    (key_grouping_delay r) (session r) v (kb_listener r)
    (timer_running r).
Definition set_kb_listener v (r : StepRecorderCore) :=
  mkCore (recording r) (paused r) (step r) (start_time r) (queue r) (outputs r)
    (last_click r) (current_keystrokes r) (last_key_time r)
    (key_grouping_delay r) (session r) (mouse_listener r) v
    (timer_running r).
Definition set_timer_running v (r : StepRecorderCore) :=
  mkCore (recording r) (paused r) (step r) (start_time r) (queue r) (outputs r)
    (last_click r) (current_keystrokes r) (last_key_time r)
    (key_grouping_delay r) (session r) (mouse_listener r) (kb_listener r)
    v.

(** Updates of the session object and of its statistics dict. *)
Definition with_statistics (f : Statistics.t -> Statistics.t) (s : Session.t) :=
  Session.mk (Session.start_time s) (Session.end_time s) (Session.steps s)
    (Session.screenshots s) (f (Session.statistics s)).

Definition append_step (d : Step.t) (s : Session.t) :=
  Session.mk (Session.start_time s) (Session.end_time s)
    (Session.steps s ++ [d]) (Session.screenshots s) (Session.statistics s).

Definition append_screenshot (p : string) (s : Session.t) :=
  Session.mk (Session.start_time s) (Session.end_time s) (Session.steps s)
    (Session.screenshots s ++ [p]) (Session.statistics s).

Definition set_end_time (t : option Z) (s : Session.t) :=
  Session.mk (Session.start_time s) t (Session.steps s)
    (Session.screenshots s) (Session.statistics s).

Definition incr_total_steps (st : Statistics.t) :=
  Statistics.mk (Statistics.clicks st) (Statistics.keystrokes st)
    (Statistics.notes st) (Statistics.applications st)
    (Statistics.total_steps st + 1) (Statistics.recording_duration st).

Definition incr_clicks (st : Statistics.t) :=
  Statistics.mk (Statistics.clicks st + 1) (Statistics.keystrokes st)
    (Statistics.notes st) (Statistics.applications st)
    (Statistics.total_steps st) (Statistics.recording_duration st).

Definition add_keystrokes (n : nat) (st : Statistics.t) :=
  Statistics.mk (Statistics.clicks st) (Statistics.keystrokes st + n)
    (Statistics.notes st) (Statistics.applications st)
    (Statistics.total_steps st) (Statistics.recording_duration st).

Definition incr_notes (st : Statistics.t) :=
  Statistics.mk (Statistics.clicks st) (Statistics.keystrokes st)
    (Statistics.notes st + 1) (Statistics.applications st)
    (Statistics.total_steps st) (Statistics.recording_duration st).

Definition add_application (a : string) (st : Statistics.t) :=
  Statistics.mk (Statistics.clicks st) (Statistics.keystrokes st)
    (Statistics.notes st) (set_add string_dec a (Statistics.applications st))
    (Statistics.total_steps st) (Statistics.recording_duration st).

Definition set_recording_duration (d : Z) (st : Statistics.t) :=
  Statistics.mk (Statistics.clicks st) (Statistics.keystrokes st)
    (Statistics.notes st) (Statistics.applications st)
    (Statistics.total_steps st) d.

(** ** The environment of a method call *)

Record Env : Type := {
  (** [datetime.now()], in microseconds *)
  now : Z;
  (** the text of the foreground window, [None] when [win32gui] is missing
      or its calls raise *)
  foreground_window : option string;
  (** [os.path.abspath] *)
  abspath : string -> string;
  (** [grab_error n] is the exception raised by [ImageGrab.grab()] or
      [img.save(path)] while the screenshot [step_n.png] is taken, if any *)
  grab_error : nat -> option string;
  (** the exception that [self.mouse_listener.start()] raises in the
      calling thread, if any; what happens later inside the listener's own
      thread is not seen by the caller and is not part of the environment *)
  mouse_listener_error : option string;
  (** the same for [self.kb_listener.start()] *)
  kb_listener_error : option string
}.

(** ** Computations over the recorder *)

Inductive outcome (A : Type) : Type :=
  | Returned (a : A)
  | Raised (exn : string).
Arguments Returned {A} a.
Arguments Raised {A} exn.

Definition M (A : Type) : Type :=
  StepRecorderCore -> outcome A * StepRecorderCore.

Definition ret {A} (a : A) : M A := fun self => (Returned a, self).

Definition raise {A} (exn : string) : M A := fun self => (Raised exn, self).

Definition bind {A B} (m : M A) (k : A -> M B) : M B :=
  fun self =>
    match m self with
    | (Returned a, self') => k a self'
    | (Raised exn, self') => (Raised exn, self')
    end.

Definition get : M StepRecorderCore := fun self => (Returned self, self).

Definition modify (f : StepRecorderCore -> StepRecorderCore) : M unit :=
  fun self => (Returned tt, f self).

Declare Scope recorder_scope.
Delimit Scope recorder_scope with rec.
Notation "x <- m ;; k" := (bind m (fun x => k))
  (at level 61, m at next level, right associativity) : recorder_scope.
Notation "m ;; k" := (bind m (fun _ => k))
  (at level 61, right associativity) : recorder_scope.
Local Open Scope recorder_scope.

(** Updates of [self.session] and [self.session.statistics]. *)
Definition modify_session (f : Session.t -> Session.t) : M unit :=
  modify (fun self => set_session (f (session self)) self).

Definition modify_statistics (f : Statistics.t -> Statistics.t) : M unit :=
  modify_session (with_statistics f).

(** ** The methods of [StepRecorderCore] *)

(** [get_active_window_title] *)
Definition get_active_window_title (e : Env) : string :=
  match foreground_window e with
  | Some EmptyString => "Unknown App"
  | Some title => title
  | None => "Unknown App"
  end.

(** [_capture_and_highlight(x, y)]; every call in the class leaves [key]
    at its default [None].  The drawing has no effect on the recorder. *)
Definition _capture_and_highlight (e : Env) (x y : Z) : M string :=
  self <- get ;;
  match grab_error e (step self) with
  | Some exn => raise exn
  | None =>
      let path := abspath e ("step_" ++ fmt_04d (step self) ++ ".png") in
      modify (set_outputs (outputs self ++ [path])) ;;
      ret path
  end.

(** [_record_keystroke_group] *)
Definition _record_keystroke_group (e : Env) : M unit :=
  self <- get ;;
  match current_keystrokes self with
  | [] => ret tt
  | _ =>
      modify (set_step (step self + 1)) ;;
      modify_statistics incr_total_steps ;;
      modify_statistics (add_keystrokes (List.length (current_keystrokes self))) ;;
      let keystroke_text := _keystrokes_to_text (current_keystrokes self) in
      img_path <- _capture_and_highlight e (fst (last_click self))
                                           (snd (last_click self)) ;;
      self <- get ;;
      let step_data :=
        {| Step.step_number := step self;
           Step.timestamp := now e;
           Step.type := keystroke;
           Step.content := keystroke_text;
           Step.application := get_active_window_title e;
           Step.screenshot := Some img_path;
           Step.coordinates := Some (last_click self);
           Step.button := None;
           Step.keystrokes := Some (current_keystrokes self) |} in
      modify_session (append_step step_data) ;;
      modify_session (append_screenshot img_path) ;;
      modify_statistics (add_application (Step.application step_data)) ;;
      modify (set_current_keystrokes [])
  end.

(** [_record_click] *)
Definition _record_click (e : Env) (x y : Z) (button : Button) : M unit :=
  self <- get ;;
  modify (set_step (step self + 1)) ;;
  modify_statistics incr_total_steps ;;
  modify_statistics incr_clicks ;;
  img_path <- _capture_and_highlight e x y ;;
  self <- get ;;
  let step_data :=
    {| Step.step_number := step self;
       Step.timestamp := now e;
       Step.type := click;
       Step.content :=
         "Click " ++ str_button button ++ " at ("
           ++ str_int x ++ "," ++ str_int y ++ ")";
       Step.application := get_active_window_title e;
       Step.screenshot := Some img_path;
       Step.coordinates := Some (x, y);
       Step.button := Some (str_button button);
       Step.keystrokes := None |} in
  modify_session (append_step step_data) ;;
  modify_session (append_screenshot img_path) ;;
  modify_statistics (add_application (Step.application step_data)).

(** [start_timer], [stop_timer], [pause_timer], [resume_timer].  Starting
    the timer also spawns a thread that runs [_timer_loop]; its iterations
    are calls of [_timer_loop_iteration] below. *)
Definition start_timer : M unit := modify (set_timer_running true).
Definition stop_timer : M unit := modify (set_timer_running false).
Definition pause_timer : M unit := modify (set_timer_running false).
Definition resume_timer : M unit := start_timer.

(** [start_recording].  Each listener attribute is assigned the new
    listener object before [start()] is called on it, so it is set also
    when the start raises; the [except] clause resets [recording] and
    raises anew. *)
Definition start_recording (e : Env) : M bool :=
  self <- get ;;
  if recording self then ret false
  else
    modify (set_recording true) ;;
    modify (set_paused false) ;;
    modify (set_step 0) ;;
    modify (set_start_time (Some (now e))) ;;
    modify (set_session Session.new) ;;
    modify_session (fun s =>
      Session.mk (Some (now e)) (Session.end_time s) (Session.steps s)
        (Session.screenshots s) (Session.statistics s)) ;;
    modify_statistics (fun _ => Statistics.zero) ;;
    modify (set_mouse_listener true) ;;
    match mouse_listener_error e with
    | Some exn =>
        modify (set_recording false) ;;
        raise ("Failed to start listeners: " ++ exn)
    | None =>
        modify (set_kb_listener true) ;;
        match kb_listener_error e with
        | Some exn =>
            modify (set_recording false) ;;
            raise ("Failed to start listeners: " ++ exn)
        | None =>
            start_timer ;;
            ret true
        end
    end.

(** [stop_recording].  The flush of the remaining keystrokes comes
    first: when it raises, nothing below it is executed. *)
Definition stop_recording (e : Env) : M bool :=
  self <- get ;;
  if negb (recording self) then ret false
  else
    match current_keystrokes self with
    | [] => ret tt
    | _ => _record_keystroke_group e
    end ;;
    modify (set_recording false) ;;
    modify (set_paused false) ;;
    modify_session (set_end_time (Some (now e))) ;;
    self <- get ;;
    match Session.start_time (session self), Session.end_time (session self) with
    | Some t0, Some t1 =>
        modify_statistics (set_recording_duration (t1 - t0)%Z)
    | _, _ => ret tt
    end ;;
    stop_timer ;;
    modify (set_mouse_listener false) ;;
    modify (set_kb_listener false) ;;
    ret true.

(** [pause_recording] *)
Definition pause_recording : M bool :=
  self <- get ;;
  if negb (recording self) then ret false
  else
    modify (set_paused true) ;;
    pause_timer ;;
    ret true.

(** [resume_recording] *)
Definition resume_recording : M bool :=
  self <- get ;;
  if negb (recording self) then ret false
  else
    modify (set_paused false) ;;
    resume_timer ;;
    ret true.

(** [add_note].  The method does not read [current_keystrokes]. *)
Definition add_note (e : Env) (note_text : string) : M bool :=
  self <- get ;;
  if negb (recording self) then ret false
  else
    modify (set_step (step self + 1)) ;;
    modify_statistics incr_total_steps ;;
    modify_statistics incr_notes ;;
    self <- get ;;
    let step_data :=
      {| Step.step_number := step self;
         Step.timestamp := now e;
         Step.type := note;
         Step.content := note_text;
         Step.application := get_active_window_title e;
         Step.screenshot := None;
         Step.coordinates := None;
         Step.button := None;
         Step.keystrokes := None |} in
    modify_session (append_step step_data) ;;
    ret true.

(** [get_recording_duration], a [timedelta] in microseconds. *)
Definition get_recording_duration (e : Env) (self : StepRecorderCore) : Z :=
  match start_time self with
  | None => 0%Z
  | Some t0 =>
      if paused self
      then Statistics.recording_duration (Session.statistics (session self))
      else (now e - t0)%Z
  end.

(** One turn of the [while] loop of [_timer_loop]: the guard and the body
    (the [sleep] separates it from the next turn). *)
Definition _timer_loop_iteration (e : Env) : M unit :=
  self <- get ;;
  if timer_running self && recording self then
    if negb (paused self) then
      modify_statistics
        (set_recording_duration (get_recording_duration e self))
    else ret tt
  else ret tt.

(** [_on_click] *)
Definition _on_click (e : Env) (x y : Z) (button : Button) (pressed : bool)
  : M unit :=
  self <- get ;;
  if pressed && recording self && negb (paused self) then
    match current_keystrokes self with
    | [] => ret tt
    | _ => _record_keystroke_group e
    end ;;
    modify (set_last_click (x, y)) ;;
    self <- get ;;
    modify (set_queue (queue self ++ [QClick x y button]))
  else ret tt.

(** [_on_key_release].  [current_time] and [last_key_time] are kept in
    microseconds, so the delay, which is in milliseconds, is scaled. *)
Definition _on_key_release (e : Env) (key : Key) : M unit :=
  self <- get ;;
  if negb (recording self) || paused self then ret tt
  else
    let current_time := now e in
    match current_keystrokes self with
    | [] => ret tt
    | _ =>
        if (key_grouping_delay self * 1000 <? current_time - last_key_time self)%Z
        then _record_keystroke_group e
        else ret tt
    end ;;
    self <- get ;;
    modify (set_current_keystrokes (current_keystrokes self ++ [key])) ;;
    modify (set_last_key_time current_time).

(** [process_queue]: the loop takes the items one by one from the front of
    the queue and records each; an exception leaves the rest queued. *)
Fixpoint process_items (e : Env) (items : list QueueItem) : M unit :=
  match items with
  | [] => ret tt
  | QClick x y button :: rest =>
      modify (set_queue rest) ;;
      _record_click e x y button ;;
      process_items e rest
  end.

Definition process_queue (e : Env) : M unit :=
  self <- get ;;
  process_items e (queue self).

(** ** Runs of the recorder *)

(** A call made on the recorder by the user interface ([start_recording],
    [stop_recording], [pause_recording], [resume_recording], [add_note],
    [process_queue]), by a listener thread ([_on_click], [_on_key_release])
    or by the timer thread (one turn of [_timer_loop]). *)
Inductive Call : Type :=
  | Start
  | Stop
  | Pause
  | Resume
  | AddNote (note_text : string)
  | OnClick (x y : Z) (button : Button) (pressed : bool)
  | OnKeyRelease (key : Key)
  | ProcessQueue
  | TimerTurn.

Definition forget {A} (m : M A) : M unit := _ <- m ;; ret tt.

Definition call (e : Env) (c : Call) : M unit :=
  match c with
  | Start => forget (start_recording e)
  | Stop => forget (stop_recording e)
  | Pause => forget pause_recording
  | Resume => forget resume_recording
  | AddNote note_text => forget (add_note e note_text)
  | OnClick x y button pressed => _on_click e x y button pressed
  | OnKeyRelease key => _on_key_release e key
  | ProcessQueue => process_queue e
  | TimerTurn => _timer_loop_iteration e
  end.

(** A run is a sequence of calls, each in its environment.  An exception
    ends the call that raised it, not the run: the caller (the Tk event
    loop, the listener thread) reports it and the recorder object lives on
    as the call left it.  The calls of a run are made one after the other:
    each has ended before the next begins.  The class takes no lock, and
    what two calls do that overlap in time (a listener thread inside
    [_record_keystroke_group] while the Tk thread is inside
    [_record_click]) is not described by a run. *)
Definition after (e : Env) (c : Call) (self : StepRecorderCore)
  : StepRecorderCore :=
  snd (call e c self).

Fixpoint run (calls : list (Env * Call)) (self : StepRecorderCore)
  : StepRecorderCore :=
  match calls with
  | [] => self
  | (e, c) :: rest => run rest (after e c self)
  end.

(** The steps of the current session and their numbers. *)
Definition steps_of (self : StepRecorderCore) : list Step.t :=
  Session.steps (session self).

Definition step_numbers (self : StepRecorderCore) : list nat :=
  map Step.step_number (steps_of self).

Definition statistics_of (self : StepRecorderCore) : Statistics.t :=
  Session.statistics (session self).

(** The number of steps of a kind. *)
Definition count_type (ty : StepType) (steps : list Step.t) : nat :=
  List.length (filter (fun d => StepType_eqb (Step.type d) ty) steps).

(** The number of key events held by the keystroke steps. *)
Definition count_keys (steps : list Step.t) : nat :=
  list_sum (map (fun d => match Step.keystrokes d with
                          | Some ks => List.length ks
                          | None => 0
                          end) steps).

(** An environment in which nothing fails, at a given time. *)
Definition calm (t : Z) : Env :=
  {| now := t; foreground_window := Some "Editor";
     abspath := fun p => "/rec/" ++ p;
     grab_error := fun _ => None;
     mouse_listener_error := None; kb_listener_error := None |}.

(** The same with a screen grab that fails. *)
Definition blind (t : Z) : Env :=
  {| now := t; foreground_window := Some "Editor";
     abspath := fun p => "/rec/" ++ p;
     grab_error := fun _ => Some "screen grab failed";
     mouse_listener_error := None; kb_listener_error := None |}.


Definition left : Button := {| button_name := "left" |}.

(** ** Vocabulary of the properties *)

(** A key with printable content: a printable character other than the
    space. *)
Definition is_text_key (key : Key) : bool :=
  match key with
  | KeyChar c => isprintable c && negb (Ascii.eqb c " ")
  | KeyOther _ => false
  end.

(** What a key adds to the text of its group: its name, unless the name
    is unsafe for XML or is one of the four excluded names. *)
Definition contribution (key : Key) : list string :=
  let key_name := _key_to_name key in
  if _is_safe_for_xml key_name
     && negb (str_in key_name ["Char(19)"; "Ctrl_L"; "Shift_L"; "Alt_L"])
  then [key_name] else [].

Definition special_names : list string :=
  ["Enter"; "Space"; "Tab"; "Backspace"; "Delete"; "Escape"].

(** No screen grab fails in the environment. *)
Definition grabs_ok (e : Env) : Prop := forall n, grab_error e n = None.

(** The steps of the session are numbered 1, 2, ... up to the counter. *)
Definition numbered (s : StepRecorderCore) : Prop :=
  step_numbers s = seq 1 (step s).

(** The counters of the statistics are those of the step list; the
    keystroke counter is the number of keys of the keystroke steps. *)
Definition consistent (s : StepRecorderCore) : Prop :=
  Statistics.total_steps (statistics_of s) = List.length (steps_of s)
  /\ Statistics.clicks (statistics_of s) = count_type click (steps_of s)
  /\ Statistics.notes (statistics_of s) = count_type note (steps_of s)
  /\ Statistics.keystrokes (statistics_of s) = count_keys (steps_of s).

(** The recorder is recording a session started at [t0]. *)
Definition recording_since (t0 : Z) (s : StepRecorderCore) : Prop :=
  recording s = true
  /\ start_time s = Some t0
  /\ Session.start_time (session s) = Some t0.

(** From [s] to [s'] the counter has not decreased and the session has
    only gained steps, all numbered above the counter of [s]. *)
Definition grows (s s' : StepRecorderCore) : Prop :=
  step s <= step s'
  /\ exists later,
       steps_of s' = (steps_of s ++ later)%list
       /\ Forall (fun d => step s < Step.step_number d) later.

(** A call that is neither an input event nor a stop: a turn of the timer
    loop, a poll of the queue, pause, resume, a note, a refused start. *)
Definition quiet (c : Call) : Prop :=
  match c with
  | OnKeyRelease _ | OnClick _ _ _ _ | Stop => False
  | _ => True
  end.

(** The recorder is recording, the group [keys] is open and no keystroke
    step has been recorded. *)
Definition group_open (keys : list Key) (s : StepRecorderCore) : Prop :=
  recording s = true
  /\ current_keystrokes s = keys
  /\ count_type keystroke (steps_of s) = 0.

(** ** Vocabulary of the further properties *)

(** An input event delivered by a listener thread. *)
Definition is_input (c : Call) : Prop :=
  match c with
  | OnClick _ _ _ _ | OnKeyRelease _ => True
  | _ => False
  end.


(** Each number of the list is strictly above the one before it, the
    first above [lo]. *)
Fixpoint ascending (lo : nat) (l : list nat) : Prop :=
  match l with
  | [] => True
  | n :: rest => lo < n /\ ascending n rest
  end.

(** The step numbers of the session ascend from 1 and stay at or below
    the step counter. *)
Definition well_numbered (s : StepRecorderCore) : Prop :=
  ascending 0 (step_numbers s)
  /\ Forall (fun n => n <= step s) (step_numbers s).


(** Each time of the list is at most [delay] milliseconds after the one
    before it, the first after [last]; times are in microseconds. *)
Fixpoint within_delay (delay last : Z) (times : list Z) : Prop :=
  match times with
  | [] => True
  | t :: rest => (t - last <= delay * 1000)%Z /\ within_delay delay t rest
  end.

(** The key releases of a typing burst, as calls. *)
Definition releases (typed : list (Env * Key)) : list (Env * Call) :=
  map (fun ek => (fst ek, OnKeyRelease (snd ek))) typed.


(** The position and the button of a queued click, as the step made for
    it holds them. *)
Definition click_place (item : QueueItem) : option (Z * Z) :=
  match item with QClick x y _ => Some (x, y) end.

Definition click_button (item : QueueItem) : option string :=
  match item with QClick _ _ button => Some (str_button button) end.


(** The screenshot references held by a list of steps, in order. *)
Definition shots (steps : list Step.t) : list string :=
  flat_map (fun d => match Step.screenshot d with
                     | Some p => [p]
                     | None => []
                     end) steps.

(** The screenshot list of the session is that of its steps, each
    screenshot is among the outputs of the recorder, and the steps without
    screenshot are the notes. *)
Definition shots_kept (s : StepRecorderCore) : Prop :=
  Session.screenshots (session s) = shots (steps_of s)
  /\ incl (Session.screenshots (session s)) (outputs s)
  /\ Forall (fun d => Step.screenshot d = None <-> Step.type d = note)
       (steps_of s).

(** The applications of the statistics are those of the click and
    keystroke steps. *)
Definition applications_of (apps : set string) (steps : list Step.t) : Prop :=
  NoDup apps
  /\ forall a, In a apps <->
       exists d, In d steps /\ Step.type d <> note /\ Step.application d = a.

(** The number written in a string of decimal digits, as [int(s)] reads
    it; [None] when a character is not a digit. *)
Definition decode_number (digits : string) : option nat :=
  option_map Nat.of_uint (NilEmpty.uint_of_string digits).

(** The file name of the screenshot of step [n], before [abspath]. *)
Definition screenshot_name (n : nat) : string :=
  "step_" ++ fmt_04d n ++ ".png".

(** Every screenshot of the session is [ap] of the file name of its
    step. *)
Definition shots_named (ap : string -> string) (s : StepRecorderCore) : Prop :=
  Forall (fun d => match Step.screenshot d with
                   | Some p => p = ap (screenshot_name (Step.step_number d))
                   | None => True
                   end) (steps_of s).


(** ** The rest of [StepRecorderCore] *)

(** The dict returned by [get_statistics]: a copy of the statistics in
    which the application set has become a list, with the entry
    ['current_duration'] added. *)
Module StatisticsView.
Record t : Type := mk {
  clicks : nat;
  keystrokes : nat;
  notes : nat;
  applications : list string;
  total_steps : nat;
  recording_duration : Z;
  current_duration : Z
}.
End StatisticsView.

(** [get_statistics] *)
Definition get_statistics (e : Env) (self : StepRecorderCore)
  : StatisticsView.t :=
  let stats := Session.statistics (session self) in
  {| StatisticsView.clicks := Statistics.clicks stats;
     StatisticsView.keystrokes := Statistics.keystrokes stats;
     StatisticsView.notes := Statistics.notes stats;
     StatisticsView.applications := Statistics.applications stats;
     StatisticsView.total_steps := Statistics.total_steps stats;
     StatisticsView.recording_duration := Statistics.recording_duration stats;
     StatisticsView.current_duration := get_recording_duration e self |}.

(** [get_session_data]: the session object itself, not a copy. *)
Definition get_session_data (self : StepRecorderCore) : Session.t :=
  session self.

(** The recorder is paused in a recording, with the given start time and
    stored duration. *)
Definition paused_at (t0 : option Z) (d : Z) (s : StepRecorderCore) : Prop :=
  recording s = true /\ paused s = true
  /\ start_time s = t0
  /\ Statistics.recording_duration (statistics_of s) = d.

(** The recorder has been stopped, with the given start time and stored
    duration. *)
Definition stopped_at (t0 d : Z) (s : StepRecorderCore) : Prop :=
  recording s = false /\ paused s = false
  /\ start_time s = Some t0
  /\ Statistics.recording_duration (statistics_of s) = d.


(** ** Files and [cleanup] *)

(** The result of [os.remove(f)]. *)
Inductive removal : Type :=
  | Removed (files : list string)
  | FileNotFoundError
  | OSError (exn : string).

(** [os.remove(f)] on the set [files] of existing paths: a missing file
    raises [FileNotFoundError]; [denied f] is the other error that
    removing an existing [f] raises, if any (no permission, a
    directory). *)
Definition os_remove (denied : string -> option string)
    (files : list string) (f : string) : removal :=
  if existsb (String.eqb f) files then
    match denied f with
    | Some exn => OSError exn
    | None => Removed (List.remove string_dec f files)
    end
  else FileNotFoundError.

(** The loop of [cleanup] over [self.outputs]: [FileNotFoundError] is
    passed over, any other error ends the loop and the call. *)
Fixpoint remove_outputs (denied : string -> option string)
    (outs files : list string) : outcome unit * list string :=
  match outs with
  | [] => (Returned tt, files)
  | f :: rest =>
      match os_remove denied files f with
      | Removed files' => remove_outputs denied rest files'
      | FileNotFoundError => remove_outputs denied rest files
      | OSError exn => (Raised exn, files)
      end
  end.

(** [cleanup], on the recorder and the set of existing files.  The
    screenshot that the final flush of [stop_recording] saves is a file
    from then on: the outputs gained during the stop are added to the
    files before the loop. *)
Definition cleanup (e : Env) (denied : string -> option string)
    (files : list string) (self : StepRecorderCore)
  : outcome unit * StepRecorderCore * list string :=
  let stopped :=
    if recording self then stop_recording e self else (Returned false, self) in
  match stopped with
  | (Raised exn, self') => (Raised exn, self', files)
  | (Returned _, self') =>
      let saved := skipn (List.length (outputs self)) (outputs self') in
      let (r, files') :=
        remove_outputs denied (outputs self') (files ++ saved) in
      (r, self', files')
  end.


(** ** The workflow manager ([workflow_collaboration.py]) *)

(** The dataclasses [Bookmark], [Comment] and [StepVersion]. *)
Module Bookmark.
Record t : Type := mk {
  step_number : nat;
  title : string;
  description : string;
  timestamp : Z;
  tags : list string
}.
End Bookmark.

Module Comment.
Record t : Type := mk {
  step_number : nat;
  author : string;
  text : string;
  timestamp : Z;
  is_resolved : bool
}.
End Comment.

Module StepVersion.
Record t : Type := mk {
  step_number : nat;
  version : nat;
  data : Step.t;
  timestamp : Z;
  author : string
}.
End StepVersion.

(** The attributes of a [WorkflowManager] that its in-memory methods use.
    [self.session] is the session object handed over by
    [get_session_data]; it is shared with the recorder, so the methods
    below take it as an argument and return it when they change it.  The
    methods that write or read files ([auto_save], [load_auto_save],
    [export_workflow_data]) are not modelled, so [auto_save_path] keeps its
    initial [None]. *)
Record WorkflowManager : Type := mkWorkflow {
  bookmarks : list Bookmark.t;
  comments : list Comment.t;
  step_versions : list StepVersion.t;
  undo_stack : list Step.t;
  redo_stack : list Step.t;
  auto_save_path : option string
}.

(** [WorkflowManager.__init__] *)
Definition WorkflowManager_init : WorkflowManager :=
  {| bookmarks := []; comments := []; step_versions := [];
     undo_stack := []; redo_stack := []; auto_save_path := None |}.

(** [add_bookmark]; [tags or []] turns a missing list into the empty
    one.  Building the dataclass cannot raise. *)
Definition add_bookmark (e : Env) (step_number : nat)
    (title description : string) (tags : option (list string))
    (w : WorkflowManager) : bool * WorkflowManager :=
  let bookmark :=
    {| Bookmark.step_number := step_number;
       Bookmark.title := title;
       Bookmark.description := description;
       Bookmark.timestamp := now e;
       Bookmark.tags := match tags with Some l => l | None => [] end |} in
  (true,
   mkWorkflow (bookmarks w ++ [bookmark]) (comments w) (step_versions w)
     (undo_stack w) (redo_stack w) (auto_save_path w)).

(** [remove_bookmark] *)
Definition remove_bookmark (step_number : nat) (w : WorkflowManager)
  : bool * WorkflowManager :=
  (true,
   mkWorkflow
     (filter (fun b => negb (Bookmark.step_number b =? step_number))
        (bookmarks w))
     (comments w) (step_versions w) (undo_stack w) (redo_stack w)
     (auto_save_path w)).

(** [get_bookmarks] *)
Definition get_bookmarks (step_number : option nat) (w : WorkflowManager)
  : list Bookmark.t :=
  match step_number with
  | None => bookmarks w
  | Some n => filter (fun b => Bookmark.step_number b =? n) (bookmarks w)
  end.

(** [add_comment] *)
Definition add_comment (e : Env) (step_number : nat) (author text : string)
    (w : WorkflowManager) : bool * WorkflowManager :=
  let comment :=
    {| Comment.step_number := step_number;
       Comment.author := author;
       Comment.text := text;
       Comment.timestamp := now e;
       Comment.is_resolved := false |} in
  (true,
   mkWorkflow (bookmarks w) (comments w ++ [comment]) (step_versions w)
     (undo_stack w) (redo_stack w) (auto_save_path w)).

(** [c.is_resolved = True] *)
Definition mark_resolved (c : Comment.t) : Comment.t :=
  Comment.mk (Comment.step_number c) (Comment.author c) (Comment.text c)
    (Comment.timestamp c) true.

(** [self.comments[i].is_resolved = True] for an index within range. *)
Fixpoint resolve_at (i : nat) (cs : list Comment.t) : list Comment.t :=
  match cs, i with
  | [], _ => []
  | c :: rest, O => mark_resolved c :: rest
  | c :: rest, S i' => c :: resolve_at i' rest
  end.

(** [resolve_comment]; the index is a Python integer. *)
Definition resolve_comment (comment_index : Z) (w : WorkflowManager)
  : bool * WorkflowManager :=
  if (0 <=? comment_index)%Z
     && (comment_index <? Z.of_nat (List.length (comments w)))%Z
  then
    (true,
     mkWorkflow (bookmarks w)
       (resolve_at (Z.to_nat comment_index) (comments w))
       (step_versions w) (undo_stack w) (redo_stack w) (auto_save_path w))
  else (false, w).

(** [get_comments] *)
Definition get_comments (step_number : option nat) (w : WorkflowManager)
  : list Comment.t :=
  match step_number with
  | None => comments w
  | Some n => filter (fun c => Comment.step_number c =? n) (comments w)
  end.

(** The loop [for s in self.session.steps: if s.get('step_number') ==
    step_number: ...; break]: the first step with the number. *)
Definition first_step_numbered (step_number : nat) (steps : list Step.t)
  : option Step.t :=
  find (fun s => Step.step_number s =? step_number) steps.

(** The versions kept for a step. *)
Definition versions_of (step_number : nat) (w : WorkflowManager)
  : list StepVersion.t :=
  filter (fun v => StepVersion.step_number v =? step_number) (step_versions w).

(** [save_step_version]; [deepcopy] of an immutable value is the value. *)
Definition save_step_version (e : Env) (step_number : nat) (author : string)
    (sess : Session.t) (w : WorkflowManager) : bool * WorkflowManager :=
  match first_step_numbered step_number (Session.steps sess) with
  | Some step =>
      let version :=
        {| StepVersion.step_number := step_number;
           StepVersion.version := List.length (versions_of step_number w) + 1;
           StepVersion.data := step;
           StepVersion.timestamp := now e;
           StepVersion.author := author |} in
      (true,
       mkWorkflow (bookmarks w) (comments w) (step_versions w ++ [version])
         (undo_stack w) (redo_stack w) (auto_save_path w))
  | None => (false, w)
  end.

(** [max(versions, key=lambda v: v.timestamp)]: the first version with
    the greatest timestamp; [best] is the greatest so far. *)
Fixpoint latest_from (best : StepVersion.t) (versions : list StepVersion.t)
  : StepVersion.t :=
  match versions with
  | [] => best
  | v :: rest =>
      if (StepVersion.timestamp best <? StepVersion.timestamp v)%Z
      then latest_from v rest
      else latest_from best rest
  end.

(** The loop [for i, step in enumerate(self.session.steps): if
    step.get('step_number') == step_number: self.session.steps[i] = new;
    return True]: [None] when no step has the number. *)
Fixpoint replace_first_numbered (step_number : nat) (new : Step.t)
    (steps : list Step.t) : option (list Step.t) :=
  match steps with
  | [] => None
  | s :: rest =>
      if Step.step_number s =? step_number then Some (new :: rest)
      else option_map (cons s) (replace_first_numbered step_number new rest)
  end.

Definition set_steps (steps : list Step.t) (s : Session.t) : Session.t :=
  Session.mk (Session.start_time s) (Session.end_time s) steps
    (Session.screenshots s) (Session.statistics s).

Definition set_redo_stack (stack : list Step.t) (w : WorkflowManager)
  : WorkflowManager :=
  mkWorkflow (bookmarks w) (comments w) (step_versions w) (undo_stack w)
    stack (auto_save_path w).

(** [undo_step] *)
Definition undo_step (step_number : nat) (sess : Session.t)
    (w : WorkflowManager) : bool * WorkflowManager * Session.t :=
  match versions_of step_number w with
  | [] => (false, w, sess)
  | v :: versions =>
      let last_version := latest_from v versions in
      let w' :=
        match first_step_numbered step_number (Session.steps sess) with
        | Some current_step => set_redo_stack (redo_stack w ++ [current_step]) w
        | None => w
        end in
      match replace_first_numbered step_number
              (StepVersion.data last_version) (Session.steps sess) with
      | Some steps' => (true, w', set_steps steps' sess)
      | None => (false, w', sess)
      end
  end.

(** [redo_step]; [self.redo_stack.pop()] takes the last element. *)
Definition redo_step (step_number : nat) (sess : Session.t)
    (w : WorkflowManager) : bool * WorkflowManager * Session.t :=
  match rev (redo_stack w) with
  | [] => (false, w, sess)
  | redo_data :: below =>
      let w' := set_redo_stack (rev below) w in
      match replace_first_numbered step_number redo_data
              (Session.steps sess) with
      | Some steps' => (true, w', set_steps steps' sess)
      | None => (false, w', sess)
      end
  end.

(** The dict returned by [get_workflow_summary]. *)
Record WorkflowSummary : Type := {
  bookmarks_count : nat;
  comments_count : nat;
  resolved_comments_count : nat;
  step_versions_count : nat;
  undo_stack_size : nat;
  redo_stack_size : nat;
  last_auto_save : option string
}.

(** [get_workflow_summary] *)
Definition get_workflow_summary (w : WorkflowManager) : WorkflowSummary :=
  {| bookmarks_count := List.length (bookmarks w);
     comments_count := List.length (comments w);
     resolved_comments_count :=
       List.length (filter Comment.is_resolved (comments w));
     step_versions_count := List.length (step_versions w);
     undo_stack_size := List.length (undo_stack w);
     redo_stack_size := List.length (redo_stack w);
     last_auto_save := auto_save_path w |}.

(** [VideoExporter._get_step_by_number] ([video_export.py]), on the
    session that the exporter was given. *)
Definition _get_step_by_number (sess : Session.t) (step_num : nat)
  : option Step.t :=
  find (fun step => Step.step_number step =? step_num) (Session.steps sess).


(** A call on the workflow manager, or a change made to the shared
    session from outside it (the recorder appending steps, a description
    being set). *)
Inductive WorkflowCall : Type :=
  | AddBookmark (e : Env) (step_number : nat) (title description : string)
      (tags : option (list string))
  | RemoveBookmark (step_number : nat)
  | AddComment (e : Env) (step_number : nat) (author text : string)
  | ResolveComment (comment_index : Z)
  | SaveStepVersion (e : Env) (step_number : nat) (author : string)
  | UndoStep (step_number : nat)
  | RedoStep (step_number : nat)
  | SessionChanged (sess : Session.t).

Definition workflow_call (c : WorkflowCall)
    (ws : WorkflowManager * Session.t) : WorkflowManager * Session.t :=
  let (w, sess) := ws in
  match c with
  | AddBookmark e n title description tags =>
      (snd (add_bookmark e n title description tags w), sess)
  | RemoveBookmark n => (snd (remove_bookmark n w), sess)
  | AddComment e n author text => (snd (add_comment e n author text w), sess)
  | ResolveComment i => (snd (resolve_comment i w), sess)
  | SaveStepVersion e n author =>
      (snd (save_step_version e n author sess w), sess)
  | UndoStep n =>
      (snd (fst (undo_step n sess w)), snd (undo_step n sess w))
  | RedoStep n =>
      (snd (fst (redo_step n sess w)), snd (redo_step n sess w))
  | SessionChanged sess' => (w, sess')
  end.

Definition workflow_run (calls : list WorkflowCall)
    (ws : WorkflowManager * Session.t) : WorkflowManager * Session.t :=
  fold_left (fun ws c => workflow_call c ws) calls ws.

(** The versions of every step are numbered 1, 2, ... in the order they
    were saved, and each holds a step with the number it was saved
    under. *)
Definition versions_sound (w : WorkflowManager) : Prop :=
  (forall n, map StepVersion.version (versions_of n w)
             = seq 1 (List.length (versions_of n w)))
  /\ Forall (fun v => Step.step_number (StepVersion.data v)
                      = StepVersion.step_number v) (step_versions w).


(** ** The capture policy ([smart_capture.py]) *)

(** The attributes of a [SmartCapture]. *)
Record SmartCapture : Type := mkSmartCapture {
  last_window_title : option string;
  last_screenshot : option string
}.

(** [SmartCapture.__init__] *)
Definition SmartCapture_init : SmartCapture :=
  {| last_window_title := None; last_screenshot := None |}.

(** [should_capture] *)
Definition should_capture (event_type current_window_title : string)
    (self : SmartCapture) : bool * SmartCapture :=
  if str_in event_type ["click"; "keystroke"] then (true, self)
  else
    match last_window_title self with
    | Some title =>
        if String.eqb title current_window_title then (false, self)
        else (true, mkSmartCapture (Some current_window_title)
                      (last_screenshot self))
    | None => (true, mkSmartCapture (Some current_window_title)
                       (last_screenshot self))
    end.

(** The policy after a sequence of events, each an event type and the
    current window title. *)
Definition policy_after (events : list (string * string))
    (self : SmartCapture) : SmartCapture :=
  fold_left (fun sc ev => snd (should_capture (fst ev) (snd ev) sc))
    events self.

(** Two versions of one note step, for examples. *)
Definition note_first : Step.t :=
  {| Step.step_number := 1; Step.timestamp := 0; Step.type := note;
     Step.content := "first"; Step.application := "a";
     Step.screenshot := None; Step.coordinates := None;
     Step.button := None; Step.keystrokes := None |}.

Definition note_edited : Step.t :=
  {| Step.step_number := 1; Step.timestamp := 0; Step.type := note;
     Step.content := "edited"; Step.application := "a";
     Step.screenshot := None; Step.coordinates := None;
     Step.button := None; Step.keystrokes := None |}.

(** * Keystroke rendering *)

Lemma str_in_spec x xs : str_in x xs = true <-> In x xs.
Proof.
  unfold str_in. rewrite existsb_exists. split.
  - intros (y & Hy & E). apply String.eqb_eq in E. now subst.
  - intros H. exists x. split; [assumption | apply String.eqb_refl].
Qed.

(** A key whose name is one of the six special names always contributes:
    the second loop of [_keystrokes_to_text] never finds a key that the
    first loop left out. *)
Lemma special_name_contributes key :
  str_in (_key_to_name key) special_names = true ->
  contribution key = [_key_to_name key].
Proof.
  intros H. apply str_in_spec in H. unfold contribution.
  unfold special_names in H. cbn [In] in H.
  destruct H as [H|[H|[H|[H|[H|[H|[]]]]]]]; rewrite <- H; reflexivity.
Qed.

Lemma no_contribution_no_special keys :
  flat_map contribution keys = [] ->
  flat_map (fun key =>
    if str_in (_key_to_name key) special_names
    then [_key_to_name key] else []) keys = [].
Proof.
  induction keys as [|key keys IH]; cbn [flat_map]; [reflexivity|].
  intros H. apply app_eq_nil in H. destruct H as [Hk Hks].
  rewrite (IH Hks), app_nil_r.
  destruct (str_in (_key_to_name key) special_names) eqn:E; [|reflexivity].
  rewrite (special_name_contributes key E) in Hk. discriminate.
Qed.

(** The text of a group is the concatenation of the contributions of its
    keys, and the marker when no key contributes. *)
Lemma keystrokes_to_text_contributions keys :
  _keystrokes_to_text keys =
    match flat_map contribution keys with
    | [] => "Special keys pressed"
    | parts => String.concat "" parts
    end.
Proof.
  unfold _keystrokes_to_text. fold contribution.
  change (flat_map (fun key => contribution key) keys)
    with (flat_map contribution keys).
  destruct (flat_map contribution keys) eqn:E; [|reflexivity].
  fold special_names.
  now rewrite (no_contribution_no_special keys E).
Qed.

(** A printable character other than the space is its own name and
    contributes it. *)
Lemma printable_char_contribution c :
  isprintable c = true -> c <> " "%char ->
  _key_to_name (KeyChar c) = String c "" /\
  contribution (KeyChar c) = [String c ""].
Proof.
  intros Hp Hs.
  assert (Hn : _key_to_name (KeyChar c) = String c "").
  { cbn [_key_to_name]. destruct (Ascii.eqb_spec c " "); [contradiction|].
    now rewrite Hp. }
  split; [exact Hn|]. unfold contribution. rewrite Hn.
  assert (Hlow : (ord c <? 32) = false).
  { unfold isprintable in Hp. apply Nat.ltb_ge.
    apply orb_true_iff in Hp. destruct Hp as [Hp|Hp];
      apply andb_true_iff in Hp; destruct Hp as [Hp _];
      apply Nat.leb_le in Hp; lia. }
  cbn [_is_safe_for_xml safe_chars]. rewrite Hlow, Hp.
  cbn [andb negb]. rewrite andb_false_r.
  cbn [str_in existsb String.eqb orb].
  repeat match goal with
         | |- context [Ascii.eqb c ?d] => destruct (Ascii.eqb c d)
         end; reflexivity.
Qed.

(** A group that holds a key with printable content has a text part. *)
Lemma text_key_contributes keys :
  existsb is_text_key keys = true -> flat_map contribution keys <> [].
Proof.
  induction keys as [|k ks IH]; cbn [existsb flat_map]; [discriminate|].
  intros H. apply orb_true_iff in H. destruct H as [H|H].
  - destruct k as [c|s]; cbn [is_text_key] in H; [|discriminate].
    apply andb_true_iff in H. destruct H as [Hp Hs].
    destruct (Ascii.eqb_spec c " ") as [|Hne]; [discriminate|].
    destruct (printable_char_contribution c Hp Hne) as [_ Hc].
    rewrite Hc. discriminate.
  - intros E. apply app_eq_nil in E. now apply IH.
Qed.

(** C8 (as amended).  A printable character other than the space
    contributes itself; the space key contributes the token [Space], not a
    blank; Enter, Tab, Backspace and the arrow keys contribute their names
    from the table.  The text of a group that holds at least one printable
    character other than the space is the concatenation, without
    separators, of what its keys contribute; the marker [Special keys
    pressed] is returned when no key of the group contributes.  Nothing is
    said of a group made of named keys only. *)
Theorem keystroke_rendering (c : ascii) (keys : list Key) :
  isprintable c = true -> c <> " "%char ->
  _keystrokes_to_text [KeyChar c] = String c ""
  /\ contribution (KeyChar c) = [String c ""]
  /\ contribution (KeyChar " ") = ["Space"]
  /\ map contribution
       [KeyOther "Key.enter"; KeyOther "Key.tab"; KeyOther "Key.backspace";
        KeyOther "Key.up"; KeyOther "Key.down"; KeyOther "Key.left";
        KeyOther "Key.right"]
     = [["Enter"]; ["Tab"]; ["Backspace"]; ["Up Arrow"]; ["Down Arrow"];
        ["Left Arrow"]; ["Right Arrow"]]
  /\ (existsb is_text_key keys = true ->
      _keystrokes_to_text keys = String.concat "" (flat_map contribution keys))
  /\ (Forall (fun key => contribution key = []) keys ->
      _keystrokes_to_text keys = "Special keys pressed").
Proof.
  intros Hp Hs.
  destruct (printable_char_contribution c Hp Hs) as [_ Hc].
  assert (Htext := keystrokes_to_text_contributions).
  split; [|split; [exact Hc|split; [reflexivity|split; [reflexivity|split]]]].
  - rewrite Htext. cbn [flat_map]. rewrite Hc. reflexivity.
  - intros Hk. rewrite Htext. apply text_key_contributes in Hk.
    destruct (flat_map contribution keys); [contradiction | reflexivity].
  - rewrite Htext. intros H.
    replace (flat_map contribution keys) with (@nil string); [reflexivity|].
    induction H as [|k ks Hk _ IH]; cbn [flat_map]; [reflexivity|].
    now rewrite Hk, <- IH.
Qed.

Lemma keystroke_rendering_witness :
  _keystrokes_to_text [KeyChar "a"] = "a"
  /\ _keystrokes_to_text
       [KeyChar "a"; KeyChar " "; KeyOther "Key.enter"; KeyOther "Key.up"]
     = "aSpaceEnterUp Arrow".
Proof.
  destruct (keystroke_rendering "a"
              [KeyChar "a"; KeyChar " "; KeyOther "Key.enter";
               KeyOther "Key.up"] eq_refl)
    as (H1 & _ & _ & _ & H5 & _).
  - discriminate.
  - split; [exact H1 | exact (H5 eq_refl)].
Defined.

(** C8 as stated fails: the space key contributes [Space] and not a
    blank; a key without character that is not in the table is rendered by
    its titled name and not by the marker. *)
Lemma keystroke_rendering_counterexample :
  _keystrokes_to_text [KeyChar "a"; KeyChar " "; KeyChar "b"] = "aSpaceb"
  /\ _keystrokes_to_text [KeyChar "a"; KeyChar " "; KeyChar "b"] <> "a b"
  /\ _keystrokes_to_text [KeyOther "Key.f1"] = "F1"
  /\ _keystrokes_to_text [KeyOther "Key.f1"] <> "Special keys pressed".
Proof.
  repeat split; try reflexivity; vm_compute; discriminate.
Qed.

(** * Reasoning about calls *)

Arguments _keystrokes_to_text : simpl never.
Arguments fmt_04d : simpl never.
Arguments str_int : simpl never.
Arguments str_button : simpl never.
Arguments String.append : simpl never.
Arguments set_add : simpl never.
Arguments Z.sub : simpl never.
Arguments Z.mul : simpl never.
Arguments Z.ltb : simpl never.
Arguments Nat.add : simpl never.

(** Unfolds a method down to the state it returns. *)
Ltac method :=
  cbv [call after forget start_recording stop_recording pause_recording
       resume_recording add_note _on_click _on_key_release process_queue
       _timer_loop_iteration _record_click _record_keystroke_group
       _capture_and_highlight start_timer stop_timer pause_timer
       resume_timer modify_statistics modify_session modify get raise ret
       bind];
  cbn.

(** * Calls made while no recording is in progress *)

(** C10.  While [recording] is false, [pause_recording],
    [resume_recording], [add_note] and [stop_recording] return [False] and
    leave the recorder object as it was: the step counter, the steps of the
    session and the statistics are those of before the call. *)
Theorem idle_calls_refused (e : Env) (note_text : string)
    (self : StepRecorderCore) :
  recording self = false ->
  pause_recording self = (Returned false, self)
  /\ resume_recording self = (Returned false, self)
  /\ add_note e note_text self = (Returned false, self)
  /\ stop_recording e self = (Returned false, self).
Proof.
  intros H. method. rewrite H. cbn. auto.
Qed.

Lemma idle_calls_refused_witness :
  pause_recording __init__ = (Returned false, __init__)
  /\ resume_recording __init__ = (Returned false, __init__)
  /\ add_note (calm 0) "hello" __init__ = (Returned false, __init__)
  /\ stop_recording (calm 0) __init__ = (Returned false, __init__).
Proof.
  apply (idle_calls_refused (calm 0) "hello" __init__). reflexivity.
Defined.

(** * Listener failure at start *)




(** * Notes *)

(** C7 (as amended).  [add_note] while recording returns [True] and
    appends one note step, numbered next, with the given text and no
    screenshot, and adds exactly one to the note counter.  It does not
    flush an open keystroke group: the group stays open as it was.  In
    particular start, add note [hello], stop yields exactly one step, a
    note with content [hello] and no screenshot. *)
Theorem add_note_appends_note (e e0 e2 : Env) (note_text : string)
    (self : StepRecorderCore) :
  recording self = true ->
  mouse_listener_error e0 = None -> kb_listener_error e0 = None ->
  let self' := snd (add_note e note_text self) in
  let n := {| Step.step_number := step self + 1;
              Step.timestamp := now e;
              Step.type := note;
              Step.content := note_text;
              Step.application := get_active_window_title e;
              Step.screenshot := None;
              Step.coordinates := None;
              Step.button := None;
              Step.keystrokes := None |} in
  fst (add_note e note_text self) = Returned true
  /\ steps_of self' = (steps_of self ++ [n])%list
  /\ Statistics.notes (statistics_of self')
     = Statistics.notes (statistics_of self) + 1
  /\ current_keystrokes self' = current_keystrokes self
  /\ exists d,
       steps_of (run [(e0, Start); (e, AddNote "hello"); (e2, Stop)] __init__)
         = [d]
       /\ Step.type d = note /\ Step.content d = "hello"
       /\ Step.screenshot d = None.
Proof.
  intros Hrec Hm Hk. cbv zeta. method. rewrite Hrec. cbn.
  repeat split.
  eexists. cbv [run after call]. method. rewrite Hm, Hk. cbn.
  repeat split.
Qed.

Lemma add_note_appends_note_witness :
  let self := run [(calm 0, Start); (calm 1, OnKeyRelease (KeyChar "a"))]
                __init__ in
  steps_of (snd (add_note (calm 2) "hello" self))
    = (steps_of self
       ++ [{| Step.step_number := 1; Step.timestamp := 2; Step.type := note;
              Step.content := "hello"; Step.application := "Editor";
              Step.screenshot := None; Step.coordinates := None;
              Step.button := None; Step.keystrokes := None |}])%list
  /\ current_keystrokes (snd (add_note (calm 2) "hello" self))
     = [KeyChar "a"].
Proof.
  destruct (add_note_appends_note (calm 2) (calm 0) (calm 3) "hello"
              (run [(calm 0, Start); (calm 1, OnKeyRelease (KeyChar "a"))]
                 __init__) eq_refl eq_refl eq_refl)
    as (_ & H2 & _ & H4 & _).
  split; [exact H2 | exact H4].
Defined.

(** C7 as stated fails: a note added while a keystroke group is open is
    recorded alone; the group has not been flushed before it and is still
    open after the call. *)
Lemma add_note_appends_note_counterexample :
  let self := run [(calm 0, Start); (calm 1, OnKeyRelease (KeyChar "a"));
                   (calm 2, AddNote "hello")] __init__ in
  map Step.type (steps_of self) = [note]
  /\ current_keystrokes self = [KeyChar "a"]
  /\ ~ (exists g n, steps_of self = [g; n] /\ Step.type g = keystroke).
Proof.
  cbv zeta. split; [reflexivity|]. split; [reflexivity|].
  intros (g & n & H & _). vm_compute in H. discriminate.
Qed.

(** * Relating the recorder before and after a call *)

Section QueueLoop.
Variable R : StepRecorderCore -> StepRecorderCore -> Prop.
Hypothesis R_refl : forall s, R s s.
Hypothesis R_trans : forall s1 s2 s3, R s1 s2 -> R s2 s3 -> R s1 s3.
Hypothesis R_queue : forall q s, R s (set_queue q s).
Variable e : Env.
Hypothesis R_click :
  forall x y button s, R s (snd (_record_click e x y button s)).

(** What every recorded click maintains, the loop of [process_queue]
    maintains, whether it runs to the end or is cut by an exception. *)
Lemma process_items_rel items :
  forall s, R s (snd (process_items e items s)).
Proof.
  induction items as [|[x y button] rest IH]; intros s;
    cbn [process_items].
  - apply R_refl.
  - unfold bind at 1. cbn [modify].
    unfold bind at 1.
    assert (Hc := R_click x y button (set_queue rest s)).
    destruct (_record_click e x y button (set_queue rest s))
      as [[[]|exn] s1]; cbn [snd] in *.
    + apply R_trans with (set_queue rest s); [apply R_queue|].
      apply R_trans with s1; [assumption | apply IH].
    + apply R_trans with (set_queue rest s); [apply R_queue | assumption].
Qed.

Lemma process_queue_rel s : R s (snd (process_queue e s)).
Proof.
  unfold process_queue, bind, get. apply process_items_rel.
Qed.
End QueueLoop.

(** Destructs the tests met by a method. *)
Ltac tests :=
  repeat (first
    [ match goal with
      | H : ?x = _ |- context [match ?x with _ => _ end] => rewrite H
      | H : forall n, grab_error _ n = None |- context [grab_error _ _] =>
          rewrite H
      end
    | match goal with
      | |- context [match ?x with _ => _ end] =>
          lazymatch x with
          | context [match _ with _ => _ end] => fail
          | _ => destruct x eqn:?
          end
      end ]; cbn).

(** * Duration *)

Lemma recording_since_click t0 e x y button s :
  recording_since t0 s ->
  recording_since t0 (snd (_record_click e x y button s)).
Proof.
  unfold recording_since. intros (H1 & H2 & H3). method. tests; auto.
Qed.

Lemma recording_since_call t0 e c s :
  c <> Stop -> recording_since t0 s -> recording_since t0 (after e c s).
Proof.
  intros Hc. unfold after.
  destruct c; try contradiction; cbn [call].
  7: { apply (process_queue_rel
                (fun s s' => recording_since t0 s -> recording_since t0 s')).
       - tauto.
       - tauto.
       - intros q s0. unfold recording_since. cbn. tauto.
       - intros. now apply recording_since_click. }
  all: intros (H1 & H2 & H3); unfold recording_since; method;
    rewrite ?H1; cbn; tests; auto.
Qed.

Lemma run_app calls1 calls2 s :
  run (calls1 ++ calls2) s = run calls2 (run calls1 s).
Proof.
  revert s. induction calls1 as [|[e c] rest IH]; intros s; cbn [run app].
  - reflexivity.
  - apply IH.
Qed.

Lemma recording_since_run t0 calls :
  Forall (fun ec => snd ec <> Stop) calls ->
  forall s, recording_since t0 s -> recording_since t0 (run calls s).
Proof.
  induction 1 as [|[e c] rest Hc _ IH]; intros s Hs; cbn [run].
  - assumption.
  - apply IH. now apply recording_since_call.
Qed.

Lemma recording_since_start e s :
  recording s = false ->
  mouse_listener_error e = None -> kb_listener_error e = None ->
  recording_since (now e) (after e Start s).
Proof.
  intros H Hm Hk. unfold recording_since. method.
  rewrite H; cbn. rewrite Hm, Hk; cbn. auto.
Qed.

Lemma stop_duration t0 e s :
  recording_since t0 s -> grabs_ok e ->
  recording (after e Stop s) = false
  /\ Statistics.recording_duration (statistics_of (after e Stop s))
     = (now e - t0)%Z
  /\ get_recording_duration e (after e Stop s) = (now e - t0)%Z.
Proof.
  intros (H1 & H2 & H3) Hg. unfold grabs_ok in Hg.
  unfold statistics_of, get_recording_duration. method. rewrite H1; cbn.
  tests; auto.
Qed.

(** C4 (as amended).  A recording started at [start] and stopped at [t3]
    reports the duration [t3 - start], whatever happens in between: the
    intervals spent paused are part of the duration that [stop_recording]
    stores in the statistics, and of what [get_recording_duration] returns
    at that time. *)
Theorem duration_spans_pauses (e0 e3 : Env) (between : list (Env * Call))
    (self : StepRecorderCore) :
  recording self = false ->
  mouse_listener_error e0 = None -> kb_listener_error e0 = None ->
  Forall (fun ec => snd ec <> Stop) between ->
  grabs_ok e3 ->
  let final := run ((e0, Start) :: between ++ [(e3, Stop)]) self in
  recording final = false
  /\ Statistics.recording_duration (statistics_of final)
     = (now e3 - now e0)%Z
  /\ get_recording_duration e3 final = (now e3 - now e0)%Z.
Proof.
  intros Hidle Hm Hk Hb Hg. cbv zeta. cbn [run]. rewrite run_app.
  cbn [run]. apply stop_duration; [|assumption].
  apply recording_since_run; [assumption|].
  now apply recording_since_start.
Qed.

Lemma duration_spans_pauses_witness :
  let final := run ((calm 0, Start)
                    :: [(calm 10, Pause); (calm 20, Resume)]
                    ++ [(calm 30, Stop)]) __init__ in
  Statistics.recording_duration (statistics_of final) = (30 - 0)%Z.
Proof.
  refine (proj1 (proj2
    (duration_spans_pauses (calm 0) (calm 30)
       [(calm 10, Pause); (calm 20, Resume)] __init__
       eq_refl eq_refl eq_refl _ _))).
  - repeat constructor; discriminate.
  - intros n. reflexivity.
Defined.

(** C4 as stated fails: start at 0, pause at 10, resume at 20, stop at 30
    reports 30, not [(10 - 0) + (30 - 20)]. *)
Lemma duration_spans_pauses_counterexample :
  let start := 0%Z in let t1 := 10%Z in let t2 := 20%Z in let t3 := 30%Z in
  Statistics.recording_duration
    (statistics_of
       (run [(calm start, Start); (calm t1, Pause); (calm t2, Resume);
             (calm t3, Stop)] __init__))
  <> ((t1 - start) + (t3 - t2))%Z.
Proof.
  vm_compute. discriminate.
Qed.

(** * Step numbers and statistics when every capture succeeds *)

Lemma seq_snoc n : (seq 1 n ++ [n + 1])%list = seq 1 (n + 1).
Proof.
  rewrite (Nat.add_comm n 1) at 2. cbn [Nat.add].
  rewrite seq_S. now rewrite Nat.add_comm.
Qed.

Ltac numbering H :=
  unfold numbered, step_numbers, steps_of in *; cbn;
  rewrite ?map_app, ?H; cbn [map Step.step_number];
  rewrite ?seq_snoc; auto.

Lemma numbered_click e x y button s :
  grabs_ok e -> numbered s -> numbered (snd (_record_click e x y button s)).
Proof.
  intros Hg H. unfold grabs_ok in Hg. method. tests. numbering H.
Qed.

Lemma numbered_call e c s :
  grabs_ok e -> numbered s -> numbered (after e c s).
Proof.
  intros Hg. unfold after.
  destruct c; cbn [call].
  8: { apply (process_queue_rel (fun s s' => numbered s -> numbered s')).
       - tauto.
       - tauto.
       - intros q s0. unfold numbered, step_numbers, steps_of. cbn. tauto.
       - intros. now apply numbered_click. }
  all: intros H; unfold grabs_ok in Hg; method; tests; numbering H.
Qed.

Ltac counting H :=
  unfold consistent, statistics_of, steps_of, count_keys, count_type in *;
  cbn;
  destruct H as (Ht & Hc & Hn & Hk);
  rewrite ?filter_app, ?map_app, ?list_sum_app, ?length_app, ?Ht, ?Hc, ?Hn, ?Hk;
  repeat match goal with
         | E : current_keystrokes ?s = _ |- context [current_keystrokes ?s] =>
             rewrite E
         end;
  cbn;
  repeat split; try reflexivity; try lia.

Lemma consistent_click e x y button s :
  grabs_ok e -> consistent s ->
  consistent (snd (_record_click e x y button s)).
Proof.
  intros Hg H. unfold grabs_ok in Hg. method. tests. counting H.
Qed.

Lemma consistent_call e c s :
  grabs_ok e -> consistent s -> consistent (after e c s).
Proof.
  intros Hg. unfold after.
  destruct c; cbn [call].
  8: { apply (process_queue_rel (fun s s' => consistent s -> consistent s')).
       - tauto.
       - tauto.
       - intros q s0. unfold consistent, statistics_of, steps_of. cbn. tauto.
       - intros. now apply consistent_click. }
  all: intros H; unfold grabs_ok in Hg; method; tests; counting H.
Qed.

Lemma run_invariant (I : StepRecorderCore -> Prop) calls :
  (forall e c s, In (e, c) calls -> I s -> I (after e c s)) ->
  forall s, I s -> I (run calls s).
Proof.
  induction calls as [|[e c] rest IH]; intros Hstep s Hs; cbn [run].
  - assumption.
  - apply IH.
    + intros e' c' s' Hin. apply Hstep. now right.
    + apply Hstep; [now left | assumption].
Qed.

(** When no capture fails, the steps of the session are numbered 1..N in
    order, N being both the number of steps and the step counter. *)
Lemma step_numbers_contiguous calls :
  Forall (fun ec => grabs_ok (fst ec)) calls ->
  step_numbers (run calls __init__)
    = seq 1 (List.length (steps_of (run calls __init__))).
Proof.
  intros Hg.
  assert (H : numbered (run calls __init__)).
  { apply run_invariant; [|reflexivity].
    intros e c s Hin. apply numbered_call.
    rewrite Forall_forall in Hg. apply (Hg (e, c) Hin). }
  unfold numbered in H. rewrite H. f_equal.
  unfold step_numbers in H.
  apply (f_equal (@List.length nat)) in H.
  now rewrite length_map, length_seq in H.
Qed.

(** * Steps only ever come after the steps already there *)

Lemma grows_refl s : grows s s.
Proof.
  split; [lia|]. exists []. split; [now rewrite app_nil_r | constructor].
Qed.

Lemma grows_trans s1 s2 s3 : grows s1 s2 -> grows s2 s3 -> grows s1 s3.
Proof.
  intros [H12 (l12 & E12 & F12)] [H23 (l23 & E23 & F23)].
  split; [lia|]. exists (l12 ++ l23)%list. split.
  - now rewrite E23, E12, app_assoc.
  - apply Forall_app. split; [assumption|].
    eapply Forall_impl; [|exact F23]. cbn. intros d Hd. lia.
Qed.

Ltac growing :=
  unfold grows, steps_of; cbn;
  (split; [lia|]);
  first [ exists []; split; [now rewrite app_nil_r | constructor]
        | eexists [_]; split; [reflexivity | repeat constructor; cbn; lia] ].

Lemma grows_click e x y button s :
  grows s (snd (_record_click e x y button s)).
Proof.
  method. tests; growing.
Qed.

Lemma grows_call e c s : c <> Start -> grows s (after e c s).
Proof.
  intros Hc. unfold after.
  destruct c; try contradiction; cbn [call].
  7: { apply (process_queue_rel grows).
       - apply grows_refl.
       - apply grows_trans.
       - intros q s0. growing.
       - intros. apply grows_click. }
  all: method; tests; growing.
Qed.

Lemma grows_run calls :
  Forall (fun ec => snd ec <> Start) calls ->
  forall s, grows s (run calls s).
Proof.
  induction 1 as [|[e c] rest Hc _ IH]; intros s; cbn [run].
  - apply grows_refl.
  - eapply grows_trans; [apply grows_call; exact Hc | apply IH].
Qed.

(** A click recorded with a working screen grab. *)
Lemma _record_click_ok e x y button s :
  grabs_ok e ->
  exists s1 c,
    _record_click e x y button s = (Returned tt, s1)
    /\ steps_of s1 = (steps_of s ++ [c])%list
    /\ step s1 = step s + 1
    /\ Step.step_number c = step s + 1
    /\ Step.type c = click
    /\ Step.coordinates c = Some (x, y)
    /\ Step.button c = Some (str_button button).
Proof.
  intros Hg. unfold grabs_ok in Hg. method. rewrite Hg. cbn.
  eexists _, _. repeat split.
Qed.

(** With a working screen grab the loop of [process_queue] records every
    queued click; the step of the last one is the last step. *)
Lemma process_items_last e x y button :
  grabs_ok e ->
  forall front s,
  exists earlier c,
    steps_of (snd (process_items e (front ++ [QClick x y button]) s))
      = (steps_of s ++ earlier ++ [c])%list
    /\ Step.type c = click
    /\ Step.coordinates c = Some (x, y)
    /\ Step.button c = Some (str_button button)
    /\ step s < Step.step_number c.
Proof.
  intros Hg. induction front as [|[x' y' button'] front IH]; intros s;
    cbn [app process_items]; unfold bind at 1; cbn [modify];
    unfold bind at 1.
  - destruct (_record_click_ok e x y button (set_queue [] s) Hg)
      as (s1 & c & E & Hsteps & Hstep & Hnum & Hty & Hxy & Hb).
    rewrite E. cbn [process_items ret snd].
    exists [], c. cbn [app]. repeat split; try assumption.
    rewrite Hnum. cbn. lia.
  - destruct (_record_click_ok e x' y' button'
                (set_queue (front ++ [QClick x y button]) s) Hg)
      as (s1 & c' & E & Hsteps & Hstep & _).
    rewrite E.
    destruct (IH s1) as (earlier & c & Hs & Hty & Hxy & Hb & Hlt).
    exists (c' :: earlier), c. repeat split; try assumption.
    + rewrite Hs, Hsteps. unfold steps_of. cbn.
      now rewrite <- app_assoc.
    + rewrite Hstep in Hlt. cbn in Hlt. lia.
Qed.

(** A click arriving while a group is open: the flush raises and the
    click is dropped, or the group becomes the last step and the click is
    queued behind it. *)
Lemma _on_click_open_group e x y button self :
  recording self = true -> paused self = false ->
  current_keystrokes self <> [] ->
  match fst (_on_click e x y button true self) with
  | Raised _ => queue (snd (_on_click e x y button true self)) = queue self
  | Returned _ =>
      exists g,
        steps_of (snd (_on_click e x y button true self))
          = (steps_of self ++ [g])%list
        /\ Step.type g = keystroke
        /\ Step.keystrokes g = Some (current_keystrokes self)
        /\ Step.step_number g = step self + 1
        /\ step (snd (_on_click e x y button true self)) = step self + 1
        /\ queue (snd (_on_click e x y button true self))
           = (queue self ++ [QClick x y button])%list
  end.
Proof.
  intros Hrec Hp Hkeys. method. rewrite Hrec, Hp. cbn.
  destruct (current_keystrokes self) as [|k ks] eqn:Ek; [contradiction|].
  cbn. destruct (grab_error e (step self + 1)) as [exn|] eqn:Eg; tests.
  - reflexivity.
  - eexists. unfold steps_of. cbn. rewrite Ek. repeat split.
Qed.

Lemma process_queue_items e s :
  process_queue e s = process_items e (queue s) s.
Proof. reflexivity. Qed.

(** C2.  A click that arrives while recording with a keystroke group
    open is queued only after the group has been flushed: when [_on_click]
    returns, the step of the group is the last step of the session and the
    click is at the back of the queue.  Every step appended afterwards in
    that session, the step of this click among them, comes later in the
    step list and has a strictly larger step number; when the queue is
    processed next, the step of the click is appended after the step of
    the group.  If flushing raises, the click is not queued and no step
    will stand for it. *)
Theorem keystroke_group_precedes_click
    (e e' : Env) (x y : Z) (button : Button) (self : StepRecorderCore)
    (calls : list (Env * Call)) :
  recording self = true -> paused self = false ->
  current_keystrokes self <> [] ->
  Forall (fun ec => snd ec <> Start) calls ->
  grabs_ok e' ->
  let arrived := _on_click e x y button true self in
  (forall exn, fst arrived = Raised exn -> queue (snd arrived) = queue self)
  /\ (fst arrived = Returned tt ->
      exists g,
        steps_of (snd arrived) = (steps_of self ++ [g])%list
        /\ Step.type g = keystroke
        /\ Step.keystrokes g = Some (current_keystrokes self)
        /\ queue (snd arrived) = (queue self ++ [QClick x y button])%list
        /\ (exists later,
              steps_of (run calls (snd arrived))
                = (steps_of self ++ [g] ++ later)%list
              /\ Forall (fun d => Step.step_number g < Step.step_number d)
                   later)
        /\ (exists earlier c,
              steps_of (after e' ProcessQueue (snd arrived))
                = (steps_of self ++ [g] ++ earlier ++ [c])%list
              /\ Step.type c = click
              /\ Step.coordinates c = Some (x, y)
              /\ Step.button c = Some (str_button button)
              /\ Step.step_number g < Step.step_number c)).
Proof.
  intros Hrec Hp Hkeys Hcalls Hg' arrived.
  assert (Hgrow := grows_run calls Hcalls (snd arrived)).
  assert (Hclick := _on_click_open_group e x y button self Hrec Hp Hkeys).
  fold arrived in Hclick.
  destruct (fst arrived) as [[]|exn0].
  - split; [discriminate|]. intros _.
    destruct Hclick as (g & Hsteps & Hty & Hks & Hnum & Hstep & Hq).
    exists g. repeat split; try assumption.
    + destruct Hgrow as [_ (later & Hlater & Flater)].
      exists later. split.
      * now rewrite Hlater, Hsteps, <- app_assoc.
      * rewrite Hnum, <- Hstep. exact Flater.
    + unfold after. cbn [call]. rewrite process_queue_items, Hq.
      destruct (process_items_last e' x y button Hg' (queue self)
                  (snd arrived))
        as (earlier & c & Hs & Hcty & Hxy & Hb & Hlt).
      exists earlier, c. repeat split; try assumption.
      * now rewrite Hs, Hsteps, <- app_assoc.
      * rewrite Hnum, <- Hstep. exact Hlt.
  - split; [|discriminate]. intros exn _. exact Hclick.
Qed.

Lemma keystroke_group_precedes_click_witness :
  let self := run [(calm 0, Start); (calm 1, OnKeyRelease (KeyChar "a"))]
                __init__ in
  let arrived := _on_click (calm 2) 200 200 left true self in
  exists g earlier c,
    steps_of (after (calm 3) ProcessQueue (snd arrived))
      = (steps_of self ++ [g] ++ earlier ++ [c])%list
    /\ Step.type g = keystroke /\ Step.type c = click
    /\ Step.step_number g < Step.step_number c.
Proof.
  cbv zeta.
  destruct (keystroke_group_precedes_click (calm 2) (calm 3) 200 200 left
              (run [(calm 0, Start); (calm 1, OnKeyRelease (KeyChar "a"))]
                 __init__)
              [(calm 3, ProcessQueue); (calm 4, Stop)]) as [_ H].
  - reflexivity.
  - reflexivity.
  - cbn. discriminate.
  - repeat constructor; discriminate.
  - intros n. reflexivity.
  - destruct (H eq_refl) as (g & _ & Hty & _ & _ & _ & earlier & c & Hs & Hc
                             & _ & _ & Hlt).
    exists g, earlier, c. repeat split; assumption.
Defined.

(** * Captures that fail *)

(** C5 (the code at a failed capture).  When the screen grab for a click
    raises, [_record_click] lets the exception through to its caller and
    appends no step, with or without screenshot; the step counter and the
    click counters have been advanced all the same.  [process_queue], which
    had taken the click from the queue, ends with the same exception.  A
    keystroke group whose capture fails is not recorded either: the
    exception goes through and the group stays open. *)
Theorem failed_capture_drops_step (e : Env) (x y : Z) (button : Button)
    (rest : list QueueItem) (exn : string) (self : StepRecorderCore) :
  grab_error e (step self + 1) = Some exn ->
  queue self = QClick x y button :: rest ->
  current_keystrokes self <> [] ->
  let recorded := _record_click e x y button self in
  let processed := process_queue e self in
  let flushed := _record_keystroke_group e self in
  fst recorded = Raised exn
  /\ steps_of (snd recorded) = steps_of self
  /\ step (snd recorded) = step self + 1
  /\ Statistics.total_steps (statistics_of (snd recorded))
     = Statistics.total_steps (statistics_of self) + 1
  /\ Statistics.clicks (statistics_of (snd recorded))
     = Statistics.clicks (statistics_of self) + 1
  /\ fst processed = Raised exn
  /\ steps_of (snd processed) = steps_of self
  /\ queue (snd processed) = rest
  /\ fst flushed = Raised exn
  /\ steps_of (snd flushed) = steps_of self
  /\ current_keystrokes (snd flushed) = current_keystrokes self.
Proof.
  intros Hg Hq Hk. cbv zeta. rewrite process_queue_items, Hq.
  cbn [process_items]. unfold steps_of, statistics_of.
  method. rewrite Hg. cbn.
  destruct (current_keystrokes self) as [|k ks] eqn:Ek; [contradiction|].
  tests. repeat split. cbn. exact Ek.
Qed.

Lemma failed_capture_drops_step_witness :
  let self := run [(calm 0, Start); (calm 1, OnClick 10 10 left true);
                   (calm 2, OnKeyRelease (KeyChar "a"))] __init__ in
  fst (process_queue (blind 3) self) = Raised "screen grab failed"
  /\ steps_of (snd (process_queue (blind 3) self)) = []
  /\ queue (snd (process_queue (blind 3) self)) = []
  /\ fst (_record_keystroke_group (blind 3) self)
     = Raised "screen grab failed"
  /\ steps_of (snd (_record_keystroke_group (blind 3) self)) = [].
Proof.
  cbv zeta.
  destruct (failed_capture_drops_step (blind 3) 10 10 left []
              "screen grab failed"
              (run [(calm 0, Start); (calm 1, OnClick 10 10 left true);
                    (calm 2, OnKeyRelease (KeyChar "a"))] __init__)
              eq_refl eq_refl)
    as (_ & _ & _ & _ & _ & H1 & H2 & H3 & H4 & H5 & _).
  - cbn. discriminate.
  - repeat split; assumption.
Defined.

(** C1 (the code after a failed capture).  A click whose capture fails
    uses up the number 1 without leaving a step; the next click is
    recorded as step 2, so the only step of the session is numbered 2. *)
Theorem step_number_lost_to_failed_capture :
  let self := run [(calm 0, Start);
                   (calm 1, OnClick 10 10 left true);
                   (blind 2, ProcessQueue);
                   (calm 3, OnClick 20 20 left true);
                   (calm 4, ProcessQueue)] __init__ in
  step_numbers self = [2]
  /\ map Step.type (steps_of self) = [click]
  /\ step_numbers self <> seq 1 (List.length (steps_of self)).
Proof.
  cbv zeta. split; [reflexivity|]. split; [reflexivity|].
  vm_compute. discriminate.
Qed.

(** * The timer *)

Ltac still_open H :=
  unfold group_open, count_type, steps_of in *; cbn;
  destruct H as (Hr & Hk & Hn);
  rewrite ?filter_app, ?length_app, ?Hn; cbn; auto.

Lemma group_open_click keys e x y button s :
  group_open keys s -> group_open keys (snd (_record_click e x y button s)).
Proof.
  intros H. method. tests; still_open H.
Qed.

Lemma group_open_call keys e c s :
  quiet c -> group_open keys s -> group_open keys (after e c s).
Proof.
  intros Hc. unfold after.
  destruct c; try contradiction; cbn [call].
  5: { apply (process_queue_rel
                (fun s s' => group_open keys s -> group_open keys s')).
       - tauto.
       - tauto.
       - intros q s0. unfold group_open, steps_of. cbn. tauto.
       - intros. now apply group_open_click. }
  all: intros H; assert (Hrec := proj1 H); method; rewrite ?Hrec; cbn;
    tests; still_open H.
Qed.

(** C3 (the code with a trailing group).  After start and the release of
    one key, no sequence of turns of the timer loop and polls of the queue
    (nor of pauses, resumes and notes), however long and however late,
    flushes the group: it is still open and the session has no keystroke
    step.  Only a further key, a click or stop flushes it. *)
Theorem timer_never_flushes (calls : list (Env * Call)) :
  Forall (fun ec => quiet (snd ec)) calls ->
  let typed := run [(calm 0, Start); (calm 1, OnKeyRelease (KeyChar "a"))]
                 __init__ in
  let waited := run calls typed in
  recording waited = true
  /\ current_keystrokes waited = [KeyChar "a"]
  /\ count_type keystroke (steps_of waited) = 0.
Proof.
  intros Hq. cbv zeta.
  change (group_open [KeyChar "a"]
            (run calls
               (run [(calm 0, Start); (calm 1, OnKeyRelease (KeyChar "a"))]
                  __init__))).
  apply run_invariant.
  - intros e c s Hin. apply group_open_call.
    rewrite Forall_forall in Hq. apply (Hq (e, c) Hin).
  - repeat split.
Qed.

Lemma timer_never_flushes_witness :
  let typed := run [(calm 0, Start); (calm 1, OnKeyRelease (KeyChar "a"))]
                 __init__ in
  let waited :=
    run [(calm 1000000, TimerTurn); (calm 1100000, ProcessQueue);
         (calm 2000000, TimerTurn); (calm 5000000, TimerTurn)] typed in
  recording waited = true
  /\ current_keystrokes waited = [KeyChar "a"]
  /\ count_type keystroke (steps_of waited) = 0.
Proof.
  apply (timer_never_flushes
           [(calm 1000000, TimerTurn); (calm 1100000, ProcessQueue);
            (calm 2000000, TimerTurn); (calm 5000000, TimerTurn)]).
  repeat constructor.
Defined.

(** * Statistics *)

(** C9 (as amended).  After every sequence of calls in which no capture
    fails, [total_steps] is the length of the step list, [clicks] the
    number of click steps, [notes] the number of note steps, and
    [keystrokes] the number of key events held by the keystroke steps (the
    keys, not the groups). *)
Theorem statistics_match_steps (calls : list (Env * Call)) :
  Forall (fun ec => grabs_ok (fst ec)) calls ->
  let s := run calls __init__ in
  Statistics.total_steps (statistics_of s) = List.length (steps_of s)
  /\ Statistics.clicks (statistics_of s) = count_type click (steps_of s)
  /\ Statistics.notes (statistics_of s) = count_type note (steps_of s)
  /\ Statistics.keystrokes (statistics_of s) = count_keys (steps_of s).
Proof.
  intros Hg. cbv zeta.
  change (consistent (run calls __init__)).
  apply run_invariant.
  - intros e c s Hin. apply consistent_call.
    rewrite Forall_forall in Hg. apply (Hg (e, c) Hin).
  - repeat split.
Qed.

Lemma statistics_match_steps_witness :
  let s := run [(calm 0, Start);
                (calm 1, OnClick 100 100 left true);
                (calm 2, ProcessQueue);
                (calm 3, OnKeyRelease (KeyChar "a"));
                (calm 4, OnKeyRelease (KeyChar "b"));
                (calm 5, AddNote "hello");
                (calm 6, Stop)] __init__ in
  Statistics.total_steps (statistics_of s) = List.length (steps_of s)
  /\ Statistics.clicks (statistics_of s) = count_type click (steps_of s)
  /\ Statistics.notes (statistics_of s) = count_type note (steps_of s)
  /\ Statistics.keystrokes (statistics_of s) = count_keys (steps_of s).
Proof.
  apply (statistics_match_steps
           [(calm 0, Start);
            (calm 1, OnClick 100 100 left true);
            (calm 2, ProcessQueue);
            (calm 3, OnKeyRelease (KeyChar "a"));
            (calm 4, OnKeyRelease (KeyChar "b"));
            (calm 5, AddNote "hello");
            (calm 6, Stop)]).
  repeat constructor.
Defined.

(** C9 as stated fails: a group of two keys is one keystroke step, and
    the keystroke statistic is 2. *)
Lemma statistics_match_steps_counterexample :
  let s := run [(calm 0, Start);
                (calm 1, OnKeyRelease (KeyChar "a"));
                (calm 2, OnKeyRelease (KeyChar "b"));
                (calm 3, Stop)] __init__ in
  count_type keystroke (steps_of s) = 1
  /\ Statistics.keystrokes (statistics_of s) = 2
  /\ Statistics.keystrokes (statistics_of s)
     <> count_type keystroke (steps_of s).
Proof.
  cbv zeta. split; [reflexivity|]. split; [reflexivity|].
  vm_compute. discriminate.
Qed.

(** * Input events outside an unpaused recording *)

(** X1.  While the recorder is idle or paused, clicks and key releases
    are dropped: whatever sequence of them arrives, the recorder object is
    left exactly as it was (nothing is queued, no key joins a group, no
    step is made). *)
Theorem inputs_dropped_unless_recording (calls : list (Env * Call))
    (self : StepRecorderCore) :
  recording self = false \/ paused self = true ->
  Forall (fun ec => is_input (snd ec)) calls ->
  run calls self = self.
Proof.
  intros Hoff Hin. induction Hin as [|[e c] rest Hc _ IH]; cbn [run].
  - reflexivity.
  - assert (E : after e c self = self).
    { destruct c; try contradiction; method.
      - destruct pressed; cbn; [|reflexivity].
        destruct Hoff as [H|H]; rewrite H; cbn;
          [reflexivity | now rewrite andb_false_r].
      - destruct Hoff as [H|H]; rewrite H; cbn;
          [reflexivity | now rewrite orb_true_r]. }
    rewrite E. exact IH.
Qed.

Lemma inputs_dropped_unless_recording_witness :
  let paused_rec := run [(calm 0, Start); (calm 1, Pause)] __init__ in
  run [(calm 2, OnKeyRelease (KeyChar "x"));
       (calm 3, OnClick 5 5 left true)] paused_rec = paused_rec.
Proof.
  apply (inputs_dropped_unless_recording
           [(calm 2, OnKeyRelease (KeyChar "x"));
            (calm 3, OnClick 5 5 left true)]
           (run [(calm 0, Start); (calm 1, Pause)] __init__)).
  - right. reflexivity.
  - repeat constructor.
Defined.

(** * The flags of the recorder *)





(** * Step numbers under failures *)

Lemma ascending_snoc lo l c :
  ascending lo l -> Forall (fun n => n <= c) l -> lo <= c ->
  ascending lo (l ++ [c + 1]).
Proof.
  revert lo. induction l as [|n l IH]; intros lo Ha Hf Hlo; cbn.
  - split; [lia | exact I].
  - destruct Ha as [Hn Ha]. inversion Hf as [|? ? Hnc Hf']; subst.
    split; [assumption|]. now apply IH.
Qed.

Lemma ascending_above lo l : ascending lo l -> Forall (fun n => lo < n) l.
Proof.
  revert lo. induction l as [|n l IH]; intros lo Ha; constructor.
  - apply Ha.
  - eapply Forall_impl; [|apply IH, Ha]. cbn. intros m Hm.
    destruct Ha. lia.
Qed.

Lemma ascending_NoDup lo l : ascending lo l -> NoDup l.
Proof.
  revert lo. induction l as [|n l IH]; intros lo Ha; constructor.
  - destruct Ha as [_ Ha]. apply ascending_above in Ha.
    rewrite Forall_forall in Ha. intros Hin. apply Ha in Hin. lia.
  - eapply IH, Ha.
Qed.

Ltac renumbering H :=
  unfold well_numbered, step_numbers, steps_of in *; cbn;
  destruct H as (Ha & Hf);
  rewrite ?map_app; cbn [map Step.step_number];
  first
    [ split; [exact I | constructor]
    | split;
      [ apply ascending_snoc; [exact Ha | exact Hf | lia]
      | apply Forall_app; split;
        [ eapply Forall_impl; [|exact Hf]; cbn; intros; lia
        | repeat constructor ] ]
    | split; [exact Ha | eapply Forall_impl; [|exact Hf]; cbn; intros; lia]
    | split; [exact Ha | exact Hf] ].

Lemma well_numbered_click e x y button s :
  well_numbered s -> well_numbered (snd (_record_click e x y button s)).
Proof.
  intros H. method. tests; renumbering H.
Qed.

Lemma well_numbered_call e c s :
  well_numbered s -> well_numbered (after e c s).
Proof.
  unfold after. destruct c; cbn [call].
  8: { apply (process_queue_rel
                (fun s s' => well_numbered s -> well_numbered s')).
       - tauto.
       - tauto.
       - intros q s0. unfold well_numbered, step_numbers, steps_of.
         cbn. tauto.
       - intros. now apply well_numbered_click. }
  all: intros H; method; tests; renumbering H.
Qed.

(** X3.  For calls made one after the other (no two of them overlap in
    time), whatever fails on the way, captures and listeners included:
    the step numbers of the session are strictly increasing from at least
    1 and never exceed the step counter; so no number is used twice in a
    session.  (In such a run a failed capture can leave a gap, not a
    duplicate.  Two calls that overlap are not covered: the counter is
    raised before the capture and read again after it, without a lock.) *)
Theorem step_numbers_never_reused (calls : list (Env * Call)) :
  let s := run calls __init__ in
  ascending 0 (step_numbers s)
  /\ Forall (fun n => n <= step s) (step_numbers s)
  /\ NoDup (step_numbers s).
Proof.
  cbv zeta.
  assert (H : well_numbered (run calls __init__)).
  { apply run_invariant.
    - intros e c s _. apply well_numbered_call.
    - split; [exact I | constructor]. }
  destruct H as [Ha Hf]. repeat split; try assumption.
  eapply ascending_NoDup, Ha.
Qed.

(** * Keystroke grouping *)

Lemma key_joins_group e key s :
  recording s = true -> paused s = false ->
  (current_keystrokes s = [] \/
   (now e - last_key_time s <= key_grouping_delay s * 1000)%Z) ->
  after e (OnKeyRelease key) s
    = set_last_key_time (now e)
        (set_current_keystrokes (current_keystrokes s ++ [key]) s).
Proof.
  intros Hr Hp Hj. method. rewrite Hr, Hp. cbn.
  destruct (current_keystrokes s) as [|k ks] eqn:Ek; cbn.
  - now rewrite Ek.
  - destruct Hj as [Hj|Hj]; [discriminate|].
    apply Z.ltb_ge in Hj. rewrite Hj. cbn. now rewrite Ek.
Qed.

Lemma last_cons_default {A} (a d d' : A) l :
  last (a :: l) d = last (a :: l) d'.
Proof.
  revert a. induction l as [|b l IH]; intros a; [reflexivity|].
  change (last (b :: l) d = last (b :: l) d'). apply IH.
Qed.

Lemma keys_join_group typed :
  forall s,
  recording s = true -> paused s = false ->
  current_keystrokes s <> [] ->
  within_delay (key_grouping_delay s) (last_key_time s)
    (map (fun ek => now (fst ek)) typed) ->
  let s' := run (releases typed) s in
  current_keystrokes s' = (current_keystrokes s ++ map snd typed)%list
  /\ last_key_time s'
     = last (map (fun ek => now (fst ek)) typed) (last_key_time s)
  /\ steps_of s' = steps_of s /\ step s' = step s
  /\ queue s' = queue s /\ statistics_of s' = statistics_of s
  /\ outputs s' = outputs s.
Proof.
  induction typed as [|[e key] typed IH]; intros s Hr Hp Hk Hw; cbv zeta.
  - cbn. rewrite app_nil_r. repeat split.
  - cbn [releases map run fst snd]. fold (releases typed).
    cbn [map fst snd within_delay] in Hw. destruct Hw as [Hgap Hw].
    rewrite (key_joins_group e key s Hr Hp (or_intror Hgap)).
    match goal with
    | |- context [run _ ?t] => specialize (IH t)
    end.
    cbv zeta in IH. cbn in IH.
    destruct IH as (H1 & H2 & H3 & H4 & H5 & H6 & H7);
      try assumption.
    { intros E. apply app_eq_nil in E. destruct E. discriminate. }
    rewrite H1, H2, H3, H4, H5, H6, H7.
    split; [now rewrite <- app_assoc|].
    split; [|repeat split].
    destruct typed as [|p typed]; [reflexivity|].
    cbn [map]. symmetry.
    change (last (now (fst p) :: map (fun ek => now (fst ek)) typed)
              (last_key_time s)
            = last (now (fst p) :: map (fun ek => now (fst ek)) typed)
                (now e)).
    apply last_cons_default.
Qed.

(** X4.  Keys released one after the other, each at most the grouping
    delay after the one before (a gap of exactly the delay included),
    all join one open group: the group holds them in order, no step is
    made, and the step counter, the queue, the statistics and the
    screenshots are untouched.  The first key of a group joins whatever the
    time since the last key of the previous group. *)
Theorem keys_within_delay_share_group (e0 : Env) (k0 : Key)
    (typed : list (Env * Key)) (self : StepRecorderCore) :
  recording self = true -> paused self = false ->
  current_keystrokes self = [] ->
  within_delay (key_grouping_delay self) (now e0)
    (map (fun ek => now (fst ek)) typed) ->
  let self' := run (releases ((e0, k0) :: typed)) self in
  current_keystrokes self' = k0 :: map snd typed
  /\ last_key_time self' = last (map (fun ek => now (fst ek)) typed) (now e0)
  /\ steps_of self' = steps_of self /\ step self' = step self
  /\ queue self' = queue self /\ statistics_of self' = statistics_of self
  /\ outputs self' = outputs self.
Proof.
  intros Hr Hp Hk Hw. cbv zeta.
  cbn [releases map run fst snd]. fold (releases typed).
  rewrite (key_joins_group e0 k0 self Hr Hp (or_introl Hk)), Hk.
  cbn [app].
  apply (keys_join_group typed
           (set_last_key_time (now e0)
              (set_current_keystrokes [k0] self))); cbn;
    try assumption; discriminate.
Qed.

Lemma keys_within_delay_share_group_witness :
  let self := run [(calm 0, Start)] __init__ in
  current_keystrokes
    (run (releases [(calm 5, KeyChar "a"); (calm 1000005, KeyChar "b");
                    (calm 1500000, KeyChar "c")]) self)
  = [KeyChar "a"; KeyChar "b"; KeyChar "c"].
Proof.
  refine (proj1 (keys_within_delay_share_group (calm 5) (KeyChar "a")
                   [(calm 1000005, KeyChar "b"); (calm 1500000, KeyChar "c")]
                   (run [(calm 0, Start)] __init__)
                   eq_refl eq_refl eq_refl _)).
  cbn. repeat split; discriminate.
Defined.

(** X5.  A key released more than the grouping delay after the last key
    of an open group closes that group first.  With a working capture the
    group becomes one keystroke step, numbered next, holding exactly the
    earlier keys, their rendered text and the position of the last click,
    and the new key opens a group of its own.  When the capture fails the
    call raises before the key is taken: the old group stays open without
    the new key and the time of the last key is not updated. *)
Theorem late_key_closes_group (e : Env) (key : Key) (self : StepRecorderCore) :
  recording self = true -> paused self = false ->
  current_keystrokes self <> [] ->
  (key_grouping_delay self * 1000 < now e - last_key_time self)%Z ->
  let r := _on_key_release e key self in
  match grab_error e (step self + 1) with
  | None =>
      fst r = Returned tt
      /\ steps_of (snd r)
         = (steps_of self
            ++ [{| Step.step_number := step self + 1;
                   Step.timestamp := now e;
                   Step.type := keystroke;
                   Step.content := _keystrokes_to_text (current_keystrokes self);
                   Step.application := get_active_window_title e;
                   Step.screenshot :=
                     Some (abspath e
                             ("step_" ++ fmt_04d (step self + 1) ++ ".png"));
                   Step.coordinates := Some (last_click self);
                   Step.button := None;
                   Step.keystrokes := Some (current_keystrokes self) |}])%list
      /\ current_keystrokes (snd r) = [key]
      /\ last_key_time (snd r) = now e
  | Some exn =>
      fst r = Raised exn
      /\ steps_of (snd r) = steps_of self
      /\ current_keystrokes (snd r) = current_keystrokes self
      /\ last_key_time (snd r) = last_key_time self
  end.
Proof.
  intros Hr Hp Hk Hlate. cbv zeta. unfold steps_of.
  apply Z.ltb_lt in Hlate.
  destruct (current_keystrokes self) as [|k ks] eqn:Ek; [contradiction|].
  destruct (grab_error e (step self + 1)) as [exn|] eqn:Eg;
    method; rewrite Hr, Hp; cbn; tests; repeat split;
    try discriminate; try congruence.
Qed.

Lemma late_key_closes_group_witness :
  let self := run [(calm 0, Start); (calm 5, OnKeyRelease (KeyChar "a"))]
                __init__ in
  map Step.content (steps_of (snd (_on_key_release (calm 1000006)
                                     (KeyChar "b") self))) = ["a"]
  /\ current_keystrokes (snd (_on_key_release (calm 1000006)
                                (KeyChar "b") self)) = [KeyChar "b"].
Proof.
  cbv zeta.
  assert (H := late_key_closes_group (calm 1000006) (KeyChar "b")
                 (run [(calm 0, Start); (calm 5, OnKeyRelease (KeyChar "a"))]
                    __init__) eq_refl eq_refl).
  cbv zeta in H. cbn [grab_error calm] in H.
  destruct H as (_ & H2 & H3 & _).
  - cbn. discriminate.
  - reflexivity.
  - split; [|exact H3]. rewrite H2. reflexivity.
Defined.

(** * Processing the queue *)

Lemma _record_click_cases e x y button s :
  queue (snd (_record_click e x y button s)) = queue s
  /\ step (snd (_record_click e x y button s)) = step s + 1
  /\ match fst (_record_click e x y button s) with
     | Returned _ =>
         exists c,
           steps_of (snd (_record_click e x y button s))
             = (steps_of s ++ [c])%list
           /\ Step.type c = click
           /\ Step.step_number c = step s + 1
           /\ Step.coordinates c = Some (x, y)
           /\ Step.button c = Some (str_button button)
     | Raised _ =>
         steps_of (snd (_record_click e x y button s)) = steps_of s
     end.
Proof.
  unfold steps_of. method. tests; repeat split. eexists. repeat split.
Qed.

Lemma process_items_cons e x y button rest s :
  process_items e (QClick x y button :: rest) s
    = match _record_click e x y button (set_queue rest s) with
      | (Returned _, s1) => process_items e rest s1
      | (Raised exn, s1) => (Raised exn, s1)
      end.
Proof. reflexivity. Qed.

Lemma process_items_all e :
  grabs_ok e ->
  forall items s, queue s = items ->
  fst (process_items e items s) = Returned tt
  /\ queue (snd (process_items e items s)) = []
  /\ step (snd (process_items e items s)) = step s + List.length items
  /\ exists recorded,
       steps_of (snd (process_items e items s))
         = (steps_of s ++ recorded)%list
       /\ map Step.coordinates recorded = map click_place items
       /\ map Step.button recorded = map click_button items
       /\ map Step.step_number recorded
          = seq (step s + 1) (List.length items)
       /\ Forall (fun d => Step.type d = click) recorded.
Proof.
  intros Hg. induction items as [|[x y button] rest IH]; intros s Hq.
  - cbn. rewrite Hq. repeat split; [cbn; lia|].
    exists []. rewrite app_nil_r. repeat split. constructor.
  - rewrite process_items_cons.
    destruct (_record_click_cases e x y button (set_queue rest s))
      as (Hqueue & Hstep & Hcase).
    destruct (_record_click_ok e x y button (set_queue rest s) Hg)
      as (s1 & c & E & _).
    rewrite E in *. cbn [fst snd] in *.
    destruct Hcase as (c' & Hs & Hty & Hnum & Hxy & Hb).
    destruct (IH s1 Hqueue) as (H1 & H2 & H3 & recorded & H4 & H5 & H6 & H7 & H8).
    split; [exact H1|]. split; [exact H2|].
    split; [rewrite H3, Hstep; cbn; lia|].
    exists (c' :: recorded). rewrite H4, Hs. unfold steps_of. cbn.
    rewrite <- app_assoc. cbn [app]. rewrite H5, H6, H7, Hxy, Hb, Hnum, Hstep.
    cbn. repeat split.
    + f_equal. f_equal. rewrite Nat.add_1_r. reflexivity.
    + constructor; assumption.
Qed.

(** X6.  With a working screen grab, [process_queue] returns normally,
    empties the queue and records every queued click, whether the
    recorder is recording, paused or stopped: one click step per item, in
    queue order, each with the position and the button of its item, and
    numbered consecutively after the step counter. *)
Theorem process_queue_records_all (e : Env) (self : StepRecorderCore) :
  grabs_ok e ->
  let r := process_queue e self in
  fst r = Returned tt
  /\ queue (snd r) = []
  /\ step (snd r) = step self + List.length (queue self)
  /\ exists recorded,
       steps_of (snd r) = (steps_of self ++ recorded)%list
       /\ map Step.coordinates recorded = map click_place (queue self)
       /\ map Step.button recorded = map click_button (queue self)
       /\ map Step.step_number recorded
          = seq (step self + 1) (List.length (queue self))
       /\ Forall (fun d => Step.type d = click) recorded.
Proof.
  intros Hg. cbv zeta. rewrite process_queue_items.
  now apply process_items_all.
Qed.

Lemma process_queue_records_all_witness :
  let self := run [(calm 0, Start); (calm 1, OnClick 1 2 left true);
                   (calm 2, OnClick 3 4 left true); (calm 3, Stop)]
                __init__ in
  queue (snd (process_queue (calm 4) self)) = []
  /\ step (snd (process_queue (calm 4) self)) = 2.
Proof.
  cbv zeta.
  destruct (process_queue_records_all (calm 4)
              (run [(calm 0, Start); (calm 1, OnClick 1 2 left true);
                    (calm 2, OnClick 3 4 left true); (calm 3, Stop)]
                 __init__)) as (_ & H2 & H3 & _).
  - intros n. reflexivity.
  - split; [exact H2 | exact H3].
Defined.

Lemma process_items_cut e :
  forall items s, queue s = items ->
  exists done rest added,
    items = (done ++ rest)%list
    /\ queue (snd (process_items e items s)) = rest
    /\ steps_of (snd (process_items e items s)) = (steps_of s ++ added)%list
    /\ match fst (process_items e items s) with
       | Returned _ => rest = [] /\ List.length added = List.length done
       | Raised _ => List.length done = S (List.length added)
       end.
Proof.
  induction items as [|[x y button] rest IH]; intros s Hq.
  - exists [], [], []. cbn. rewrite Hq, app_nil_r. repeat split.
  - rewrite process_items_cons.
    destruct (_record_click_cases e x y button (set_queue rest s))
      as (Hqueue & _ & Hcase).
    destruct (_record_click e x y button (set_queue rest s))
      as [[[]|exn] s1]; cbn [fst snd] in *.
    + destruct Hcase as (c & Hs & _).
      destruct (IH s1 Hqueue) as (done & rest' & added & E & Hq' & Hs' & Hm).
      exists (QClick x y button :: done), rest', (c :: added).
      split; [cbn; now rewrite E|]. split; [assumption|].
      split; [rewrite Hs', Hs; unfold steps_of; cbn;
              now rewrite <- app_assoc|].
      destruct (fst (process_items e rest s1)); cbn.
      * destruct Hm. split; [assumption | lia].
      * lia.
    + exists [QClick x y button], rest, []. cbn.
      rewrite app_nil_r, Hqueue. repeat split. exact Hcase.
Qed.

(** X7.  Whatever the screen grab does, [process_queue] takes the queued
    clicks from the front, in order, and never re-queues or adds one: the
    queue it leaves is a suffix of the queue it found.  When it returns
    normally the queue is empty and one step was appended per click; when
    it raises, the click whose capture failed has been taken from the
    queue without a step being made for it (it is lost), and the clicks
    behind it stay queued. *)
Theorem process_queue_cut (e : Env) (self : StepRecorderCore) :
  let r := process_queue e self in
  exists done rest added,
    queue self = (done ++ rest)%list
    /\ queue (snd r) = rest
    /\ steps_of (snd r) = (steps_of self ++ added)%list
    /\ match fst r with
       | Returned _ => rest = [] /\ List.length added = List.length done
       | Raised _ => List.length done = S (List.length added)
       end.
Proof.
  cbv zeta. rewrite process_queue_items. now apply process_items_cut.
Qed.

(** * Screenshots of the session *)

Ltac keeping H :=
  unfold shots_kept, shots, steps_of in *; cbn;
  destruct H as (Hs & Hi & Hf);
  rewrite ?flat_map_app, ?Hs; cbn; rewrite ?app_nil_r;
  repeat split;
  try (apply incl_nil_l);
  try (apply incl_app; [apply incl_appl; rewrite <- ?Hs; exact Hi
                       | apply incl_appr, incl_refl]);
  try (rewrite <- ?Hs; exact Hi);
  try (apply Forall_app; split;
       [exact Hf | repeat constructor; cbn; intros; discriminate]);
  try exact Hf; try constructor.

Lemma shots_kept_click e x y button s :
  shots_kept s -> shots_kept (snd (_record_click e x y button s)).
Proof.
  intros H. method. tests; keeping H.
Qed.

Lemma shots_kept_call e c s : shots_kept s -> shots_kept (after e c s).
Proof.
  unfold after. destruct c; cbn [call].
  8: { apply (process_queue_rel (fun s s' => shots_kept s -> shots_kept s')).
       - tauto.
       - tauto.
       - intros q s0. unfold shots_kept, steps_of. cbn. tauto.
       - intros. now apply shots_kept_click. }
  all: intros H; method; tests; keeping H.
Qed.

(** X8.  In every state the recorder can reach, the screenshot list of
    the session is exactly the list of the screenshots of its steps, in
    step order; every one of them is among the recorder's outputs (the
    files that [cleanup] removes); and a step is without screenshot
    exactly when it is a note: every click and keystroke step of the
    session has one. *)
Theorem session_screenshots_are_step_screenshots (calls : list (Env * Call)) :
  let s := run calls __init__ in
  Session.screenshots (session s) = shots (steps_of s)
  /\ incl (Session.screenshots (session s)) (outputs s)
  /\ Forall (fun d => Step.screenshot d = None <-> Step.type d = note)
       (steps_of s).
Proof.
  cbv zeta. change (shots_kept (run calls __init__)).
  apply run_invariant.
  - intros e c s _. apply shots_kept_call.
  - repeat split. apply incl_nil_l. constructor.
Qed.

(** * Applications seen *)

Lemma applications_of_add apps steps d :
  applications_of apps steps -> Step.type d <> note ->
  applications_of (set_add string_dec (Step.application d) apps)
    (steps ++ [d]).
Proof.
  intros [Hn H] Hd. split; [now apply set_add_nodup|].
  intros a. rewrite set_add_iff, H. split.
  - intros [->|(d' & Hin & Hty & Ha)].
    + exists d. split; [apply in_or_app; right; now left | auto].
    + exists d'. split; [apply in_or_app; now left | auto].
  - intros (d' & Hin & Hty & Ha). apply in_app_or in Hin.
    destruct Hin as [Hin|[->|[]]].
    + right. now exists d'.
    + left. now symmetry.
Qed.

Lemma applications_of_note apps steps d :
  applications_of apps steps -> Step.type d = note ->
  applications_of apps (steps ++ [d]).
Proof.
  intros [Hn H] Hd. split; [assumption|].
  intros a. rewrite H. split.
  - intros (d' & Hin & Hty & Ha). exists d'.
    split; [apply in_or_app; now left | auto].
  - intros (d' & Hin & Hty & Ha). apply in_app_or in Hin.
    destruct Hin as [Hin|[->|[]]]; [now exists d' | contradiction].
Qed.

Lemma applications_of_nil : applications_of (empty_set string) [].
Proof.
  split; [constructor|]. intros a. split; [intros []|].
  intros (d & [] & _).
Qed.

Ltac seen H :=
  unfold statistics_of, steps_of in *; cbn;
  first
    [ exact H
    | apply applications_of_nil
    | match goal with
      | |- applications_of _ (_ ++ [?d]) =>
          first [ apply (applications_of_add _ _ d H); cbn; discriminate
                | apply (applications_of_note _ _ d H); reflexivity ]
      end ].

Lemma applications_click e x y button s :
  applications_of (Statistics.applications (statistics_of s)) (steps_of s) ->
  applications_of
    (Statistics.applications
       (statistics_of (snd (_record_click e x y button s))))
    (steps_of (snd (_record_click e x y button s))).
Proof.
  intros H. method. tests; seen H.
Qed.

Lemma applications_call e c s :
  applications_of (Statistics.applications (statistics_of s)) (steps_of s) ->
  applications_of (Statistics.applications (statistics_of (after e c s)))
    (steps_of (after e c s)).
Proof.
  unfold after. destruct c; cbn [call].
  8: { apply (process_queue_rel
                (fun s s' =>
                   applications_of
                     (Statistics.applications (statistics_of s)) (steps_of s) ->
                   applications_of
                     (Statistics.applications (statistics_of s'))
                     (steps_of s'))).
       - tauto.
       - tauto.
       - intros q s0. unfold statistics_of, steps_of. cbn. tauto.
       - intros. now apply applications_click. }
  all: intros H; method; tests; seen H.
Qed.

(** X9.  In every state the recorder can reach, the application set of
    the statistics holds each title once and is exactly the set of window
    titles of the click and keystroke steps of the session; the title
    under which a note was added is not counted unless a click or
    keystroke step has it too. *)
Theorem applications_are_those_of_steps (calls : list (Env * Call)) :
  let s := run calls __init__ in
  NoDup (Statistics.applications (statistics_of s))
  /\ forall a,
       In a (Statistics.applications (statistics_of s)) <->
       exists d, In d (steps_of s) /\ Step.type d <> note
                 /\ Step.application d = a.
Proof.
  cbv zeta.
  apply (run_invariant
           (fun s => applications_of
                       (Statistics.applications (statistics_of s))
                       (steps_of s))).
  - intros e c s _. apply applications_call.
  - apply applications_of_nil.
Qed.

(** * Screenshot file names *)

Arguments String.append : simpl nomatch.

Lemma string_length_append a b :
  String.length (a ++ b) = String.length a + String.length b.
Proof.
  induction a as [|c a IH]; cbn; [reflexivity|]. now rewrite IH.
Qed.

Lemma append_inv_tail a b c : (a ++ c = b ++ c)%string -> a = b.
Proof.
  revert b. induction a as [|x a IH]; intros [|y b] H; cbn in H.
  - reflexivity.
  - apply (f_equal String.length) in H. cbn in H.
    rewrite string_length_append in H. lia.
  - apply (f_equal String.length) in H. cbn in H.
    rewrite string_length_append in H. lia.
  - injection H as -> H. f_equal. now apply IH.
Qed.

Lemma decode_zeros k s :
  decode_number
    ((fix zeros k := match k with
                     | O => ""
                     | S k' => String "0" (zeros k')
                     end) k ++ s)
  = decode_number s.
Proof.
  unfold decode_number. induction k as [|k IH]; [reflexivity|].
  cbn [String.append NilEmpty.uint_of_string].
  destruct (NilEmpty.uint_of_string (_ ++ s)) as [d|] eqn:E;
    destruct (NilEmpty.uint_of_string s) as [d'|] eqn:E';
    cbn in *; try discriminate; auto.
Qed.

Lemma decode_str_nat n : decode_number (str_nat n) = Some n.
Proof.
  unfold decode_number, str_nat.
  rewrite <- (DecimalNat.Unsigned.of_to n) at 2.
  destruct (Nat.to_uint n) as [|d|d|d|d|d|d|d|d|d|d];
    unfold NilZero.string_of_uint;
    try (rewrite NilEmpty.usu; reflexivity).
  reflexivity.
Qed.

Lemma decode_fmt_04d n : decode_number (fmt_04d n) = Some n.
Proof.
  unfold fmt_04d. rewrite decode_zeros. apply decode_str_nat.
Qed.

Lemma screenshot_name_inj n m :
  screenshot_name n = screenshot_name m -> n = m.
Proof.
  unfold screenshot_name. intros H. cbn in H.
  injection H as H. apply append_inv_tail in H.
  assert (E := decode_fmt_04d n). rewrite H, decode_fmt_04d in E.
  now injection E.
Qed.

(** X10.  The four-digit field of a screenshot file name reads back as
    the step number it was made from, for every step number (also above
    9999, where the field gets longer), and it has at least four
    characters; so the file names of two different step numbers differ. *)
Theorem screenshot_name_round_trip (n m : nat) :
  decode_number (fmt_04d n) = Some n
  /\ 4 <= String.length (fmt_04d n)
  /\ (screenshot_name n = screenshot_name m -> n = m).
Proof.
  split; [apply decode_fmt_04d|]. split; [|apply screenshot_name_inj].
  unfold fmt_04d. rewrite string_length_append.
  match goal with
  | |- context [String.length (?z ?k)] =>
      assert (L : forall j, String.length (z j) = j)
        by (intros j; induction j; cbn; auto)
  end.
  rewrite L. lia.
Qed.

Arguments String.append : simpl never.

Ltac naming H Hap :=
  unfold shots_named, steps_of, screenshot_name in *; cbn;
  first
    [ exact H
    | constructor
    | apply Forall_app; split;
      [ exact H | repeat constructor; cbn; rewrite ?Hap; reflexivity ] ].

Lemma shots_named_click ap e x y button s :
  abspath e = ap ->
  shots_named ap s -> shots_named ap (snd (_record_click e x y button s)).
Proof.
  intros Hap H. method. tests; naming H Hap.
Qed.

Lemma shots_named_call ap e c s :
  abspath e = ap -> shots_named ap s -> shots_named ap (after e c s).
Proof.
  intros Hap. unfold after. destruct c; cbn [call].
  8: { apply (process_queue_rel
                (fun s s' => shots_named ap s -> shots_named ap s')).
       - tauto.
       - tauto.
       - intros q s0. unfold shots_named, steps_of. cbn. tauto.
       - intros. now apply shots_named_click. }
  all: intros H; method; tests; naming H Hap.
Qed.

Lemma shots_NoDup ap steps :
  (forall a b, ap a = ap b -> a = b) ->
  NoDup (map Step.step_number steps) ->
  Forall (fun d => match Step.screenshot d with
                   | Some p => p = ap (screenshot_name (Step.step_number d))
                   | None => True
                   end) steps ->
  NoDup (shots steps).
Proof.
  intros Hinj. induction steps as [|d steps IH]; intros Hn Hf; cbn.
  - constructor.
  - inversion Hn as [|? ? Hnotin Hn']; subst.
    inversion Hf as [|? ? Hd Hf']; subst.
    fold (shots steps).
    destruct (Step.screenshot d) as [p|]; cbn; [|now apply IH].
    constructor; [|now apply IH].
    intros Hin. unfold shots in Hin. apply in_flat_map in Hin.
    destruct Hin as (d' & Hd' & Hp).
    rewrite Forall_forall in Hf'. specialize (Hf' d' Hd').
    destruct (Step.screenshot d') as [p'|]; [|contradiction].
    destruct Hp as [->|[]]. subst p.
    apply Hinj, screenshot_name_inj in Hf'.
    apply Hnotin. rewrite Hf'. now apply in_map.
Qed.

(** X11.  For calls made one after the other (no two of them overlap in
    time), and as long as [os.path.abspath] stays the same injective
    function (the working directory does not change), the screenshots of
    a session are pairwise different files, whatever fails on the way: a
    later step of the session does not overwrite the screenshot of an
    earlier one.  Two recordings that overlap are not covered. *)
Theorem session_screenshots_distinct (ap : string -> string)
    (calls : list (Env * Call)) :
  (forall a b, ap a = ap b -> a = b) ->
  Forall (fun ec => abspath (fst ec) = ap) calls ->
  NoDup (Session.screenshots (session (run calls __init__))).
Proof.
  intros Hinj Hap.
  assert (Hnamed : shots_named ap (run calls __init__)).
  { apply run_invariant.
    - intros e c s Hin. apply shots_named_call.
      rewrite Forall_forall in Hap. apply (Hap (e, c) Hin).
    - constructor. }
  assert (Hkept : shots_kept (run calls __init__)).
  { apply run_invariant.
    - intros e c s _. apply shots_kept_call.
    - repeat split. apply incl_nil_l. constructor. }
  assert (Hnum : well_numbered (run calls __init__)).
  { apply run_invariant.
    - intros e c s _. apply well_numbered_call.
    - split; [exact I | constructor]. }
  destruct Hkept as (Hs & _). rewrite Hs.
  apply (shots_NoDup ap); try assumption.
  destruct Hnum as [Ha _]. eapply ascending_NoDup, Ha.
Qed.

Lemma session_screenshots_distinct_witness :
  NoDup (Session.screenshots
           (session (run [(calm 0, Start); (calm 1, OnClick 1 2 left true);
                          (blind 2, ProcessQueue);
                          (calm 3, OnClick 3 4 left true);
                          (calm 4, OnClick 5 6 left true);
                          (calm 5, ProcessQueue)] __init__))).
Proof.
  apply (session_screenshots_distinct (fun p => "/rec/" ++ p)%string).
  - intros a b H. now injection H.
  - repeat constructor.
Defined.

(** * Durations reported while paused and after stop *)

Lemma paused_at_click t0 d e x y button s :
  paused_at t0 d s -> paused_at t0 d (snd (_record_click e x y button s)).
Proof.
  unfold paused_at, statistics_of. intros (H1 & H2 & H3 & H4).
  method. tests; auto.
Qed.

Lemma paused_at_call t0 d e c s :
  c <> Resume -> c <> Stop ->
  paused_at t0 d s -> paused_at t0 d (after e c s).
Proof.
  intros Hr Hs. unfold after.
  destruct c; try contradiction; cbn [call].
  6: { apply (process_queue_rel
                (fun s s' => paused_at t0 d s -> paused_at t0 d s')).
       - tauto.
       - tauto.
       - intros q s0. unfold paused_at, statistics_of. cbn. tauto.
       - intros. now apply paused_at_click. }
  all: unfold paused_at, statistics_of; intros (H1 & H2 & H3 & H4);
    method; rewrite ?H1, ?H2; cbn; rewrite ?andb_false_r, ?orb_true_r; cbn;
    tests; auto.
Qed.

(** X12.  While a recording is paused, the duration that
    [get_statistics] reports as current does not follow the clock: until
    resume or stop it is the duration last stored in the statistics,
    whatever is called in between and whenever it is asked. *)
Theorem paused_duration_frozen (e e' : Env) (calls : list (Env * Call))
    (self : StepRecorderCore) :
  recording self = true -> paused self = true ->
  Forall (fun ec => snd ec <> Resume /\ snd ec <> Stop) calls ->
  StatisticsView.current_duration (get_statistics e' (run calls self))
    = StatisticsView.current_duration (get_statistics e self)
  /\ (start_time self <> None ->
      StatisticsView.current_duration (get_statistics e self)
        = Statistics.recording_duration (statistics_of self)).
Proof.
  intros Hr Hp Hc.
  assert (H : paused_at (start_time self)
                (Statistics.recording_duration (statistics_of self))
                (run calls self)).
  { apply run_invariant.
    - intros e1 c s Hin. rewrite Forall_forall in Hc.
      destruct (Hc (e1, c) Hin). now apply paused_at_call.
    - repeat split; assumption. }
  destruct H as (H1 & H2 & H3 & H4).
  unfold get_statistics, get_recording_duration, statistics_of in *.
  cbn. rewrite H2, H3, H4, Hp. split.
  - reflexivity.
  - destruct (start_time self); [reflexivity | contradiction].
Qed.

Lemma paused_duration_frozen_witness :
  let self := run [(calm 0, Start); (calm 1000000, TimerTurn);
                   (calm 1500000, Pause)] __init__ in
  StatisticsView.current_duration
    (get_statistics (calm 9000000)
       (run [(calm 2000000, TimerTurn); (calm 3000000, AddNote "n")] self))
  = StatisticsView.current_duration (get_statistics (calm 1500000) self).
Proof.
  refine (proj1 (paused_duration_frozen (calm 1500000) (calm 9000000)
                   [(calm 2000000, TimerTurn); (calm 3000000, AddNote "n")]
                   (run [(calm 0, Start); (calm 1000000, TimerTurn);
                         (calm 1500000, Pause)] __init__)
                   eq_refl eq_refl _)).
  repeat constructor; discriminate.
Defined.

Lemma stopped_at_click t0 d e x y button s :
  stopped_at t0 d s -> stopped_at t0 d (snd (_record_click e x y button s)).
Proof.
  unfold stopped_at, statistics_of. intros (H1 & H2 & H3 & H4).
  method. tests; auto.
Qed.

Lemma stopped_at_call t0 d e c s :
  c <> Start -> stopped_at t0 d s -> stopped_at t0 d (after e c s).
Proof.
  intros Hs. unfold after.
  destruct c; try contradiction; cbn [call].
  7: { apply (process_queue_rel
                (fun s s' => stopped_at t0 d s -> stopped_at t0 d s')).
       - tauto.
       - tauto.
       - intros q s0. unfold stopped_at, statistics_of. cbn. tauto.
       - intros. now apply stopped_at_click. }
  all: unfold stopped_at, statistics_of; intros (H1 & H2 & H3 & H4);
    method; rewrite ?H1, ?H2; cbn; rewrite ?andb_false_r; cbn;
    tests; auto.
Qed.

(** X13.  After [stop_recording] the stored recording duration stays at
    end time minus start time, but the duration that [get_statistics]
    reports as current is not frozen: asked at time [t], it is [t] minus
    the start time, until a new recording is started. *)
Theorem stopped_duration_keeps_running (t0 : Z) (e3 e : Env)
    (later : list (Env * Call)) (self : StepRecorderCore) :
  recording_since t0 self -> grabs_ok e3 ->
  Forall (fun ec => snd ec <> Start) later ->
  let final := run ((e3, Stop) :: later) self in
  StatisticsView.recording_duration (get_statistics e final)
    = (now e3 - t0)%Z
  /\ StatisticsView.current_duration (get_statistics e final)
     = (now e - t0)%Z.
Proof.
  intros Hsince Hg Hl. cbv zeta. cbn [run].
  assert (H0 : stopped_at t0 (now e3 - t0) (after e3 Stop self)).
  { destruct Hsince as (H1 & H2 & H3). unfold grabs_ok in Hg.
    unfold stopped_at, statistics_of. method. rewrite H1; cbn.
    tests; auto. }
  assert (H : stopped_at t0 (now e3 - t0) (run later (after e3 Stop self))).
  { apply run_invariant; [|exact H0].
    intros e1 c s Hin. rewrite Forall_forall in Hl.
    apply stopped_at_call. apply (Hl (e1, c) Hin). }
  destruct H as (H1 & H2 & H3 & H4).
  unfold get_statistics, get_recording_duration, statistics_of in *.
  cbn. now rewrite H2, H3, H4.
Qed.

Lemma stopped_duration_keeps_running_witness :
  let final := run ((calm 30, Stop) :: [(calm 40, TimerTurn)])
                 (run [(calm 0, Start)] __init__) in
  StatisticsView.recording_duration (get_statistics (calm 100) final)
    = (30 - 0)%Z
  /\ StatisticsView.current_duration (get_statistics (calm 100) final)
     = (100 - 0)%Z.
Proof.
  apply (stopped_duration_keeps_running 0 (calm 30) (calm 100)
           [(calm 40, TimerTurn)] (run [(calm 0, Start)] __init__)).
  - repeat split.
  - intros n. reflexivity.
  - repeat constructor; discriminate.
Defined.

(** * Stopping *)

(** X14.  [stop_recording] on a recording either stops it or leaves it
    recording.  When it returns, it returns [True]: the recorder is idle
    and unpaused, the timer and both listeners are off, the end time is
    set, and the keys that were pending have become the last step of the
    session (no step is added when none were pending).  When it raises,
    which only the capture of the final flush can cause, the recorder is
    still recording with timer, listeners, pending keys and steps as
    before and no end time set, but the call was not without effect: the
    flush has counted before it captured, so the step counter and the
    total of steps are one higher and the keystroke count has grown by
    the number of pending keys.  Nothing else of the recorder has
    changed. *)
Theorem stop_recording_stops_or_keeps_recording (e : Env)
    (self : StepRecorderCore) :
  recording self = true ->
  let r := stop_recording e self in
  match fst r with
  | Returned b =>
      b = true
      /\ recording (snd r) = false /\ paused (snd r) = false
      /\ timer_running (snd r) = false
      /\ mouse_listener (snd r) = false /\ kb_listener (snd r) = false
      /\ Session.end_time (session (snd r)) = Some (now e)
      /\ current_keystrokes (snd r) = []
      /\ match current_keystrokes self with
         | [] => steps_of (snd r) = steps_of self
         | keys =>
             exists g, steps_of (snd r) = (steps_of self ++ [g])%list
                       /\ Step.type g = keystroke
                       /\ Step.keystrokes g = Some keys
         end
  | Raised exn =>
      grab_error e (step self + 1) = Some exn
      /\ current_keystrokes self <> []
      /\ recording (snd r) = true
      /\ paused (snd r) = paused self
      /\ timer_running (snd r) = timer_running self
      /\ mouse_listener (snd r) = mouse_listener self
      /\ kb_listener (snd r) = kb_listener self
      /\ Session.end_time (session (snd r)) = Session.end_time (session self)
      /\ current_keystrokes (snd r) = current_keystrokes self
      /\ steps_of (snd r) = steps_of self
      /\ step (snd r) = step self + 1
      /\ Statistics.total_steps (statistics_of (snd r))
         = Statistics.total_steps (statistics_of self) + 1
      /\ Statistics.keystrokes (statistics_of (snd r))
         = Statistics.keystrokes (statistics_of self)
           + List.length (current_keystrokes self)
      /\ snd r
         = set_session
             (with_statistics
                (fun st =>
                   add_keystrokes (List.length (current_keystrokes self))
                     (incr_total_steps st))
                (session self))
             (set_step (step self + 1) self)
  end.
Proof.
  intros Hr. cbv zeta. unfold steps_of, statistics_of. method.
  rewrite Hr. cbn.
  destruct (current_keystrokes self) as [|k ks] eqn:Ek; cbn.
  - tests; repeat split; auto.
  - destruct (grab_error e (step self + 1)) as [exn|] eqn:Eg; tests;
      repeat split; auto; try discriminate;
      try (eexists; repeat split; cbn; now rewrite Ek).
    all: cbv [set_session set_step with_statistics add_keystrokes
              incr_total_steps]; cbn; now rewrite ?Ek.
Qed.

Lemma stop_recording_stops_or_keeps_recording_witness :
  let self := run [(calm 0, Start); (calm 1, OnKeyRelease (KeyChar "a"))]
                __init__ in
  recording (snd (stop_recording (blind 2) self)) = true
  /\ current_keystrokes (snd (stop_recording (blind 2) self))
     = [KeyChar "a"]
  /\ step (snd (stop_recording (blind 2) self)) = step self + 1.
Proof.
  cbv zeta.
  assert (H := stop_recording_stops_or_keeps_recording (blind 2)
                 (run [(calm 0, Start); (calm 1, OnKeyRelease (KeyChar "a"))]
                    __init__) eq_refl).
  cbv zeta in H.
  destruct (fst (stop_recording (blind 2)
                   (run [(calm 0, Start);
                         (calm 1, OnKeyRelease (KeyChar "a"))] __init__)))
    as [b|exn] eqn:E.
  - exfalso. vm_compute in E. discriminate.
  - destruct H as (_ & _ & H3 & _ & _ & _ & _ & _ & H9 & _ & H11 & _).
    split; [exact H3 | split; [exact H9 | exact H11]].
Defined.

(** * Cleaning up *)

Lemma in_remove_iff (f g : string) files :
  In g (List.remove string_dec f files) <-> In g files /\ g <> f.
Proof.
  split.
  - apply in_remove.
  - intros [H1 H2]. now apply in_in_remove.
Qed.

Lemma existsb_eqb_In f files :
  existsb (String.eqb f) files = true <-> In f files.
Proof.
  rewrite existsb_exists. split.
  - intros (g & Hg & E). apply String.eqb_eq in E. now subst.
  - intros H. exists f. split; [assumption | apply String.eqb_refl].
Qed.

Lemma remove_outputs_all denied outs :
  (forall f, In f outs -> denied f = None) ->
  forall files,
  fst (remove_outputs denied outs files) = Returned tt
  /\ forall g, In g (snd (remove_outputs denied outs files)) <->
               In g files /\ ~ In g outs.
Proof.
  intros Hd. induction outs as [|f outs IH]; intros files;
    cbn [remove_outputs].
  - split; [reflexivity|]. cbn. tauto.
  - unfold os_remove.
    destruct (existsb (String.eqb f) files) eqn:E.
    + rewrite (Hd f (or_introl eq_refl)).
      destruct (IH (fun g Hg => Hd g (or_intror Hg))
                  (List.remove string_dec f files)) as [H1 H2].
      split; [assumption|]. intros g. rewrite H2, in_remove_iff. cbn.
      split.
      * intros [[Hg Hne] Hn]. split; [assumption|].
        intros [Heq|Hin]; [now apply Hne | contradiction].
      * intros [Hg Hn]. split; [split; [assumption|] |].
        -- intros Heq. apply Hn. now left.
        -- intros Hin. apply Hn. now right.
    + destruct (IH (fun g Hg => Hd g (or_intror Hg)) files) as [H1 H2].
      split; [assumption|]. intros g. rewrite H2. cbn. split.
      * intros [Hg Hn]. split; [assumption|].
        intros [Heq|Hin]; [|contradiction].
        subst g. apply existsb_eqb_In in Hg. congruence.
      * intros [Hg Hn]. split; [assumption|].
        intros Hin. apply Hn. now right.
Qed.

Lemma remove_outputs_missing denied outs files :
  (forall f, In f outs -> ~ In f files) ->
  remove_outputs denied outs files = (Returned tt, files).
Proof.
  induction outs as [|f outs IH]; intros Hm; cbn [remove_outputs].
  - reflexivity.
  - unfold os_remove.
    destruct (existsb (String.eqb f) files) eqn:E.
    + apply existsb_eqb_In in E. exfalso. apply (Hm f); [now left | exact E].
    + apply IH. intros g Hg. apply Hm. now right.
Qed.

Lemma stop_recording_returns e self :
  recording self = true -> grabs_ok e ->
  exists self',
    stop_recording e self = (Returned true, self')
    /\ recording self' = false.
Proof.
  intros Hr Hg. unfold grabs_ok in Hg. method. rewrite Hr. cbn.
  tests; eexists; split; reflexivity.
Qed.

Lemma skipn_incl {A} n (l : list A) : incl (skipn n l) l.
Proof.
  revert l. induction n as [|n IH]; intros [|x l]; cbn;
    try apply incl_refl.
  intros a Ha. right. now apply IH.
Qed.

(** X15.  When the stop that [cleanup] may have to make does not fail
    and no removal is refused, [cleanup] returns normally, the recorder is
    idle, and afterwards none of the recorder's outputs exists as a file,
    whether a path occurs once or several times in the outputs; every
    other file is left as it was. *)
Theorem cleanup_removes_outputs (e : Env) (denied : string -> option string)
    (files : list string) (self : StepRecorderCore) :
  grabs_ok e -> (forall f, denied f = None) ->
  let '(r, self', files') := cleanup e denied files self in
  r = Returned tt
  /\ recording self' = false
  /\ (forall f, In f (outputs self') -> ~ In f files')
  /\ (forall f, ~ In f (outputs self') -> (In f files' <-> In f files)).
Proof.
  intros Hg Hd. unfold cleanup.
  assert (Hstop :
    exists b self',
      (if recording self then stop_recording e self
       else (Returned false, self)) = (Returned b, self')
      /\ recording self' = false
      /\ incl (skipn (List.length (outputs self)) (outputs self'))
           (outputs self')).
  { destruct (recording self) eqn:Hr.
    - assert (H := stop_recording_returns e self Hr Hg).
      destruct H as (self' & E & Hrec). exists true, self'.
      split; [assumption|]. split; [assumption|]. apply skipn_incl.
    - exists false, self. split; [reflexivity|]. split; [assumption|].
      apply skipn_incl. }
  destruct Hstop as (b & self' & E & Hrec & Hincl). rewrite E.
  destruct (remove_outputs_all denied (outputs self')
              (fun f _ => Hd f)
              (files ++ skipn (List.length (outputs self)) (outputs self')))
    as [H1 H2].
  destruct (remove_outputs denied (outputs self') _) as [r files'].
  cbn [fst snd] in *. split; [assumption|]. split; [assumption|]. split.
  - intros f Hf Hin. apply H2 in Hin. tauto.
  - intros f Hf. rewrite H2, in_app_iff. split.
    + intros [[Hin|Hin] _]; [assumption|]. exfalso. now apply Hf, Hincl.
    + intros Hin. auto.
Qed.

Lemma cleanup_removes_outputs_witness :
  let '(r, self', files') :=
    cleanup (calm 9) (fun _ => None)
      ["/rec/step_0001.png"; "/home/report.docx"]
      (run [(calm 0, Start); (calm 1, OnClick 1 2 left true);
            (calm 2, ProcessQueue); (calm 3, OnKeyRelease (KeyChar "a"))]
         __init__) in
  r = Returned tt
  /\ recording self' = false
  /\ (forall f, In f (outputs self') -> ~ In f files')
  /\ (forall f, ~ In f (outputs self') ->
                (In f files' <-> In f ["/rec/step_0001.png";
                                       "/home/report.docx"])).
Proof.
  apply (cleanup_removes_outputs (calm 9) (fun _ => None)
           ["/rec/step_0001.png"; "/home/report.docx"]
           (run [(calm 0, Start); (calm 1, OnClick 1 2 left true);
                 (calm 2, ProcessQueue);
                 (calm 3, OnKeyRelease (KeyChar "a"))] __init__)).
  - intros n. reflexivity.
  - reflexivity.
Defined.

Lemma stop_recording_returned e self :
  recording self = true ->
  match fst (stop_recording e self) with
  | Returned _ => recording (snd (stop_recording e self)) = false
  | Raised _ => True
  end.
Proof.
  intros Hr. method. rewrite Hr. cbn. tests; auto.
Qed.

Lemma remove_outputs_returned denied outs :
  forall files,
  fst (remove_outputs denied outs files) = Returned tt ->
  (forall f, In f outs -> ~ In f (snd (remove_outputs denied outs files)))
  /\ incl (snd (remove_outputs denied outs files)) files.
Proof.
  induction outs as [|f outs IH]; intros files; cbn [remove_outputs].
  - intros _. split; [intros f [] | apply incl_refl].
  - unfold os_remove.
    destruct (existsb (String.eqb f) files) eqn:E.
    + destruct (denied f); [discriminate|]. intros H.
      destruct (IH _ H) as [H1 H2]. split.
      * intros g [Heq|Hg]; [|now apply H1]. subst g.
        intros Hin. apply H2 in Hin. apply in_remove in Hin.
        now destruct Hin.
      * intros g Hg. apply H2 in Hg. apply in_remove in Hg. tauto.
    + intros H. destruct (IH _ H) as [H1 H2]. split; [|assumption].
      intros g [Heq|Hg]; [|now apply H1]. subst g.
      intros Hin. apply H2 in Hin. apply existsb_eqb_In in Hin. congruence.
Qed.

(** X16.  [cleanup] can be called again after a [cleanup] that returned
    normally: the second call returns normally too and changes neither the
    recorder nor the files, whatever removals would be refused then.  The
    outputs are not forgotten by the first call; the second one finds every
    file missing and passes over it. *)
Theorem cleanup_again_is_harmless (e1 e2 : Env)
    (denied1 denied2 : string -> option string) (files : list string)
    (self : StepRecorderCore) :
  fst (fst (cleanup e1 denied1 files self)) = Returned tt ->
  let self' := snd (fst (cleanup e1 denied1 files self)) in
  let files' := snd (cleanup e1 denied1 files self) in
  cleanup e2 denied2 files' self' = (Returned tt, self', files').
Proof.
  unfold cleanup at 1 2 3.
  assert (Hs := stop_recording_returned e1 self).
  destruct (recording self) eqn:Hr.
  - specialize (Hs eq_refl).
    destruct (stop_recording e1 self) as [[b|exn] s1]; cbn [fst snd] in *.
    + destruct (remove_outputs denied1 (outputs s1) _) as [r f1] eqn:E.
      cbn [fst snd]. intros Hret. subst r.
      destruct (remove_outputs_returned denied1 (outputs s1) _
                  (eq_trans (f_equal fst E) eq_refl)) as [H1 _].
      rewrite E in H1. cbn [snd] in H1.
      unfold cleanup. rewrite Hs, skipn_all, app_nil_r.
      now rewrite (remove_outputs_missing denied2 (outputs s1) f1 H1).
    + intros H. discriminate.
  - clear Hs.
    destruct (remove_outputs denied1 (outputs self) _) as [r f1] eqn:E.
    cbn [fst snd]. intros Hret. subst r.
    destruct (remove_outputs_returned denied1 (outputs self) _
                (eq_trans (f_equal fst E) eq_refl)) as [H1 _].
    rewrite E in H1. cbn [snd] in H1.
    unfold cleanup. rewrite Hr, skipn_all, app_nil_r.
    now rewrite (remove_outputs_missing denied2 (outputs self) f1 H1).
Qed.

Lemma cleanup_again_is_harmless_witness :
  let self := run [(calm 0, Start); (calm 1, OnClick 1 2 left true);
                   (calm 2, ProcessQueue)] __init__ in
  let first := cleanup (calm 9) (fun _ => None) ["/rec/step_0001.png"] self in
  cleanup (blind 10) (fun _ => Some "denied") (snd first) (snd (fst first))
    = (Returned tt, snd (fst first), snd first).
Proof.
  apply (cleanup_again_is_harmless (calm 9) (blind 10) (fun _ => None)
           (fun _ => Some "denied") ["/rec/step_0001.png"]
           (run [(calm 0, Start); (calm 1, OnClick 1 2 left true);
                 (calm 2, ProcessQueue)] __init__)).
  reflexivity.
Defined.

(** * More on keystroke rendering *)

Arguments String.append : simpl nomatch.

Lemma safe_chars_app a b :
  safe_chars (a ++ b) = safe_chars a && safe_chars b.
Proof.
  induction a as [|c a IH]; [reflexivity|].
  cbn [String.append safe_chars].
  destruct ((ord c <? 32) && negb (existsb (Ascii.eqb c) tab_nl_cr));
    [reflexivity|].
  destruct ((127 <? ord c) && negb (isprintable c)); [reflexivity|].
  exact IH.
Qed.

Lemma safe_text_chars s : _is_safe_for_xml s = true -> safe_chars s = true.
Proof. destruct s; [discriminate | auto]. Qed.

Lemma safe_text_app a b :
  _is_safe_for_xml a = true -> safe_chars b = true ->
  _is_safe_for_xml (a ++ b) = true.
Proof.
  intros Ha Hb. destruct a as [|c a]; [discriminate|].
  change (safe_chars (String c a ++ b) = true).
  rewrite safe_chars_app, Hb, andb_true_r. exact Ha.
Qed.

Lemma contribution_is_safe key x :
  In x (contribution key) -> _is_safe_for_xml x = true.
Proof.
  unfold contribution.
  destruct (_is_safe_for_xml (_key_to_name key)) eqn:E; cbn [andb];
    [|intros []].
  destruct (negb _); [|intros []]. intros [<-|[]]. exact E.
Qed.

Lemma concat_is_safe parts :
  parts <> [] ->
  Forall (fun x => _is_safe_for_xml x = true) parts ->
  _is_safe_for_xml (String.concat "" parts) = true.
Proof.
  induction parts as [|x parts IH]; intros Hne Hf; [contradiction|].
  inversion Hf as [|? ? Hx Hf']; subst.
  destruct parts as [|y parts]; [exact Hx|].
  change (_is_safe_for_xml (x ++ String.concat "" (y :: parts)) = true).
  apply safe_text_app; [exact Hx|].
  apply safe_text_chars, IH; [discriminate | exact Hf'].
Qed.

(** X17.  The text that [_keystrokes_to_text] returns is always safe for
    XML in the sense of [_is_safe_for_xml], whatever keys the group holds
    (control characters, keys without character, no key at all): it is
    never empty and contains no control character other than tab, newline
    and carriage return, and no unprintable character above 127. *)
Theorem keystrokes_text_is_xml_safe (keys : list Key) :
  _is_safe_for_xml (_keystrokes_to_text keys) = true.
Proof.
  rewrite keystrokes_to_text_contributions.
  destruct (flat_map contribution keys) as [|p parts] eqn:E;
    [reflexivity|].
  apply concat_is_safe; [discriminate|].
  rewrite <- E. apply Forall_forall. intros x Hx.
  apply in_flat_map in Hx. destruct Hx as (key & _ & Hx).
  now apply contribution_is_safe in Hx.
Qed.

Arguments String.append : simpl never.

Lemma mapped_name_never_raw k :
  str_in (dict_get key_mapping k k) ["Ctrl_L"; "Shift_L"; "Alt_L"] = false.
Proof.
  unfold str_in, key_mapping. cbn [dict_get existsb].
  repeat match goal with
         | |- context [String.eqb k ?s] =>
             destruct (String.eqb_spec k s); cbn
         end;
    try reflexivity; try congruence.
Qed.

(** X18.  [_key_to_name] never returns the raw names [Ctrl_L], [Shift_L]
    and [Alt_L] (the table turns them into [Ctrl], [Shift], [Alt]), so
    three of the four names that [_keystrokes_to_text] excludes can never
    match and modifier keys are always part of the text.  Among the keys
    with a character, exactly one is left out of the text: the control
    character 19; every other one contributes its name. *)
Theorem only_char_19_is_left_out (key : Key) (c : ascii) :
  str_in (_key_to_name key) ["Ctrl_L"; "Shift_L"; "Alt_L"] = false
  /\ (contribution (KeyChar c) = [] <-> c = ascii_of_nat 19)
  /\ (c <> ascii_of_nat 19 ->
      contribution (KeyChar c) = [_key_to_name (KeyChar c)]).
Proof.
  split.
  - destruct key as [ch|s].
    + destruct ch as [[] [] [] [] [] [] [] []]; vm_compute; reflexivity.
    + cbn [_key_to_name]. apply mapped_name_never_raw.
  - destruct c as [[] [] [] [] [] [] [] []]; vm_compute;
      (split; [split; intros H; (reflexivity || discriminate)
              | intros H; (reflexivity || (exfalso; now apply H))]).
Qed.

(** * Bookmarks and comments *)

(** X19.  Bookmarks are kept per step number, whether or not a step
    with that number exists: adding one for step [n] appends it to the
    bookmarks of [n]; removing the bookmarks of [n] leaves none for [n],
    however many there were, and returns [True] also when there was none;
    neither changes the bookmarks of another step [m]. *)
Theorem bookmarks_by_step_number (e : Env) (n m : nat)
    (title description : string) (tags : option (list string))
    (w : WorkflowManager) :
  m <> n ->
  let added := add_bookmark e n title description tags w in
  let removed := remove_bookmark n w in
  fst added = true
  /\ get_bookmarks (Some n) (snd added)
     = (get_bookmarks (Some n) w
        ++ [{| Bookmark.step_number := n; Bookmark.title := title;
               Bookmark.description := description;
               Bookmark.timestamp := now e;
               Bookmark.tags := match tags with
                                | Some l => l
                                | None => []
                                end |}])%list
  /\ get_bookmarks (Some m) (snd added) = get_bookmarks (Some m) w
  /\ fst removed = true
  /\ get_bookmarks (Some n) (snd removed) = []
  /\ get_bookmarks (Some m) (snd removed) = get_bookmarks (Some m) w
  /\ get_bookmarks (Some n) (snd (remove_bookmark n (snd added))) = [].
Proof.
  intros Hmn. cbv zeta. cbn [add_bookmark remove_bookmark fst snd
                              get_bookmarks bookmarks].
  assert (Hrm : forall l,
            filter (fun b => Bookmark.step_number b =? n)
              (filter (fun b => negb (Bookmark.step_number b =? n)) l) = []).
  { induction l as [|b l IH]; cbn; [reflexivity|].
    destruct (Bookmark.step_number b =? n) eqn:E; cbn; [exact IH|].
    now rewrite E. }
  assert (Hkeep : forall l,
            filter (fun b => Bookmark.step_number b =? m)
              (filter (fun b => negb (Bookmark.step_number b =? n)) l)
            = filter (fun b => Bookmark.step_number b =? m) l).
  { induction l as [|b l IH]; cbn; [reflexivity|].
    destruct (Bookmark.step_number b =? n) eqn:E; cbn.
    - apply Nat.eqb_eq in E. rewrite E.
      assert (E' : (n =? m) = false) by (apply Nat.eqb_neq; lia).
      now rewrite E'.
    - now rewrite IH. }
  rewrite !filter_app, Hrm, Hkeep. cbn.
  rewrite Nat.eqb_refl.
  assert (E' : (n =? m) = false) by (apply Nat.eqb_neq; lia).
  rewrite E', app_nil_r. repeat split.
Qed.

Lemma bookmarks_by_step_number_witness :
  let w := snd (add_bookmark (calm 1) 2 "login" "" None WorkflowManager_init) in
  get_bookmarks (Some 7) (snd (remove_bookmark 7
                                 (snd (add_bookmark (calm 2) 7 "t" "d"
                                         (Some ["a"]) w)))) = []
  /\ List.length (get_bookmarks (Some 2)
                    (snd (remove_bookmark 7 w))) = 1.
Proof.
  cbv zeta.
  destruct (bookmarks_by_step_number (calm 2) 7 2 "t" "d" (Some ["a"])
              (snd (add_bookmark (calm 1) 2 "login" "" None
                      WorkflowManager_init)))
    as (_ & _ & _ & _ & _ & H6 & H7).
  - discriminate.
  - split; [exact H7 | now rewrite H6].
Defined.

Lemma resolve_at_length i cs :
  List.length (resolve_at i cs) = List.length cs.
Proof.
  revert i. induction cs as [|c cs IH]; intros [|i]; cbn; auto.
Qed.

Lemma resolve_at_nth i cs j :
  i < List.length cs ->
  nth_error (resolve_at i cs) j
    = if j =? i then option_map mark_resolved (nth_error cs j)
      else nth_error cs j.
Proof.
  revert i j. induction cs as [|c cs IH]; intros i j Hi; cbn in Hi;
    [lia|].
  destruct i as [|i], j as [|j]; cbn; try reflexivity.
  apply IH. lia.
Qed.

Lemma resolved_count_step i cs :
  List.length (filter Comment.is_resolved cs)
    <= List.length (filter Comment.is_resolved (resolve_at i cs))
    <= S (List.length (filter Comment.is_resolved cs)).
Proof.
  revert i. induction cs as [|c cs IH]; intros [|i]; cbn; try lia.
  - destruct (Comment.is_resolved c); cbn; lia.
  - specialize (IH i). destruct (Comment.is_resolved c); cbn; lia.
Qed.

(** X20.  [resolve_comment] accepts exactly the indices from 0 to the
    number of comments minus one; a negative or too large index returns
    [False] and changes nothing.  An accepted index marks that one comment
    resolved and leaves every other comment, the number of comments and
    the rest of the manager unchanged, so the count of resolved comments
    grows by at most one and never shrinks. *)
Theorem resolve_comment_bounds (i : Z) (j : nat) (w : WorkflowManager) :
  let r := resolve_comment i w in
  (fst r = true <-> (0 <= i < Z.of_nat (List.length (comments w)))%Z)
  /\ (fst r = false -> snd r = w)
  /\ List.length (comments (snd r)) = List.length (comments w)
  /\ nth_error (comments (snd r)) j
     = (if fst r && (j =? Z.to_nat i)
        then option_map mark_resolved (nth_error (comments w) j)
        else nth_error (comments w) j)
  /\ bookmarks (snd r) = bookmarks w
  /\ step_versions (snd r) = step_versions w
  /\ resolved_comments_count (get_workflow_summary w)
     <= resolved_comments_count (get_workflow_summary (snd r))
     <= S (resolved_comments_count (get_workflow_summary w)).
Proof.
  cbv zeta. unfold resolve_comment.
  destruct ((0 <=? i)%Z && (i <? Z.of_nat (List.length (comments w)))%Z)
    eqn:E; cbn.
  - apply andb_true_iff in E. destruct E as [E1 E2].
    apply Z.leb_le in E1. apply Z.ltb_lt in E2.
    split; [split; [lia | reflexivity]|].
    split; [discriminate|].
    split; [apply resolve_at_length|].
    split; [apply resolve_at_nth; lia|].
    repeat split; apply resolved_count_step.
  - split.
    + split; [discriminate|]. intros [H1 H2].
      apply Z.leb_le in H1. apply Z.ltb_lt in H2.
      rewrite H1, H2 in E. discriminate.
    + repeat split; lia.
Qed.

(** * Step versions, undo and redo *)

Lemma versions_of_snoc n w v :
  versions_of n
    (mkWorkflow (bookmarks w) (comments w) (step_versions w ++ [v])
       (undo_stack w) (redo_stack w) (auto_save_path w))
  = (versions_of n w
     ++ (if StepVersion.step_number v =? n then [v] else []))%list.
Proof.
  unfold versions_of. cbn. now rewrite filter_app.
Qed.

Lemma find_numbered n steps d :
  find (fun s => Step.step_number s =? n) steps = Some d ->
  Step.step_number d = n.
Proof.
  intros H. apply find_some in H. destruct H as [_ H].
  now apply Nat.eqb_eq.
Qed.

Lemma versions_sound_save e n author sess w :
  versions_sound w ->
  versions_sound (snd (save_step_version e n author sess w)).
Proof.
  intros [Hnum Hdata]. unfold save_step_version, first_step_numbered.
  destruct (find _ (Session.steps sess)) as [d|] eqn:E; cbn [snd];
    [|split; assumption].
  split.
  - intros m. rewrite versions_of_snoc. cbn [StepVersion.step_number].
    destruct (n =? m) eqn:Enm.
    + apply Nat.eqb_eq in Enm. subst m.
      rewrite map_app, length_app, Hnum.
      cbn [map List.length StepVersion.version]. apply seq_snoc.
    + rewrite app_nil_r. apply Hnum.
  - cbn. apply Forall_app. split; [assumption|].
    constructor; [|constructor]. cbn. now apply find_numbered in E.
Qed.

Lemma versions_sound_call c w sess :
  versions_sound w ->
  versions_sound (fst (workflow_call c (w, sess)))
  /\ (undo_stack w = [] -> undo_stack (fst (workflow_call c (w, sess))) = []).
Proof.
  intros H. destruct c; cbn [workflow_call fst snd].
  - split; [exact H | auto].
  - split; [exact H | auto].
  - split; [exact H | auto].
  - unfold resolve_comment. destruct (_ && _); cbn; split; auto.
  - split; [now apply versions_sound_save|].
    unfold save_step_version. destruct (first_step_numbered _ _); auto.
  - unfold undo_step. destruct (versions_of step_number w); cbn;
      [split; auto|].
    destruct (first_step_numbered _ _);
      destruct (replace_first_numbered _ _ _); cbn; split; auto.
  - unfold redo_step. destruct (rev (redo_stack w)); cbn; [split; auto|].
    destruct (replace_first_numbered _ _ _); cbn; split; auto.
  - split; auto.
Qed.

Lemma workflow_run_invariant calls :
  forall w sess,
  versions_sound w -> undo_stack w = [] ->
  versions_sound (fst (workflow_run calls (w, sess)))
  /\ undo_stack (fst (workflow_run calls (w, sess))) = [].
Proof.
  induction calls as [|c calls IH]; intros w sess Hs Hu;
    cbn [workflow_run fold_left].
  - split; assumption.
  - destruct (versions_sound_call c w sess Hs) as [Hs' Hu'].
    destruct (workflow_call c (w, sess)) as [w' sess'] eqn:E.
    apply (IH w' sess'); [exact Hs' | exact (Hu' Hu)].
Qed.

(** X21.  After any sequence of calls on a new workflow manager,
    interleaved with any changes of the session it shares, the versions
    kept for each step are numbered 1, 2, 3, ... in the order they were
    saved, without gap or repetition, and every version holds a step
    whose number is the number it was saved under. *)
Theorem versions_numbered_in_order (calls : list WorkflowCall)
    (sess : Session.t) (n : nat) :
  let w := fst (workflow_run calls (WorkflowManager_init, sess)) in
  map StepVersion.version (versions_of n w)
    = seq 1 (List.length (versions_of n w))
  /\ Forall (fun v => Step.step_number (StepVersion.data v)
                      = StepVersion.step_number v) (step_versions w).
Proof.
  cbv zeta.
  destruct (workflow_run_invariant calls WorkflowManager_init sess)
    as [[H1 H2] _].
  - split; [reflexivity | constructor].
  - reflexivity.
  - split; [apply H1 | exact H2].
Qed.

(** X22.  The undo stack of the workflow manager is never written: after
    any sequence of calls on a new manager the summary reports an undo
    stack of size 0, and never more resolved comments than comments. *)
Theorem undo_stack_never_used (calls : list WorkflowCall) (sess : Session.t) :
  let summary :=
    get_workflow_summary
      (fst (workflow_run calls (WorkflowManager_init, sess))) in
  undo_stack_size summary = 0
  /\ resolved_comments_count summary <= comments_count summary.
Proof.
  cbv zeta.
  destruct (workflow_run_invariant calls WorkflowManager_init sess)
    as [_ H].
  - split; [reflexivity | constructor].
  - reflexivity.
  - cbn. rewrite H. split; [reflexivity | apply filter_length_le].
Qed.

Lemma replace_first_none n new steps :
  find (fun s => Step.step_number s =? n) steps = None ->
  replace_first_numbered n new steps = None.
Proof.
  induction steps as [|s steps IH]; cbn; [reflexivity|].
  destruct (Step.step_number s =? n); [discriminate|].
  intros H. now rewrite (IH H).
Qed.

Lemma rev_cons_removelast {A} (l : list A) x below :
  rev l = x :: below -> rev below = removelast l /\ l = (rev below ++ [x])%list.
Proof.
  intros H. apply (f_equal (@rev A)) in H. rewrite rev_involutive in H.
  cbn in H. subst l. split; [|reflexivity].
  now rewrite removelast_last.
Qed.

(** X23.  A step number that no step of the session has is "not found",
    not an error: [save_step_version] and [undo_step] return [False] and
    change nothing.  [redo_step] returns [False] too and leaves the
    session alone, but it has already taken the top entry off the redo
    stack, which is lost. *)
Theorem unknown_step_not_found (e : Env) (n : nat) (author : string)
    (sess : Session.t) (w : WorkflowManager) :
  first_step_numbered n (Session.steps sess) = None ->
  save_step_version e n author sess w = (false, w)
  /\ undo_step n sess w = (false, w, sess)
  /\ fst (fst (redo_step n sess w)) = false
  /\ snd (redo_step n sess w) = sess
  /\ redo_stack (snd (fst (redo_step n sess w))) = removelast (redo_stack w).
Proof.
  intros H. unfold save_step_version, undo_step, redo_step. rewrite H.
  unfold first_step_numbered in H.
  split; [reflexivity|]. split.
  - destruct (versions_of n w); [reflexivity|].
    now rewrite (replace_first_none _ _ _ H).
  - destruct (rev (redo_stack w)) as [|x below] eqn:E.
    + cbn. repeat split.
      destruct (redo_stack w) as [|y l]; [reflexivity|].
      cbn in E. now destruct (rev l).
    + rewrite (replace_first_none _ _ _ H). cbn. repeat split.
      now apply rev_cons_removelast in E.
Qed.

Lemma unknown_step_not_found_witness :
  let w := set_redo_stack
             [{| Step.step_number := 1; Step.timestamp := 0;
                 Step.type := note; Step.content := "n";
                 Step.application := "a"; Step.screenshot := None;
                 Step.coordinates := None; Step.button := None;
                 Step.keystrokes := None |}] WorkflowManager_init in
  undo_step 5 Session.new w = (false, w, Session.new)
  /\ redo_stack (snd (fst (redo_step 5 Session.new w))) = [].
Proof.
  cbv zeta.
  destruct (unknown_step_not_found (calm 0) 5 "me" Session.new
              (set_redo_stack
                 [{| Step.step_number := 1; Step.timestamp := 0;
                     Step.type := note; Step.content := "n";
                     Step.application := "a"; Step.screenshot := None;
                     Step.coordinates := None; Step.button := None;
                     Step.keystrokes := None |}] WorkflowManager_init)
              eq_refl) as (_ & H2 & _ & _ & H5).
  split; [exact H2 | exact H5].
Defined.

Lemma first_numbered_split n steps cur :
  find (fun s => Step.step_number s =? n) steps = Some cur ->
  exists before after,
    steps = (before ++ cur :: after)%list
    /\ Forall (fun s => Step.step_number s <> n) before
    /\ Step.step_number cur = n.
Proof.
  induction steps as [|s steps IH]; cbn; [discriminate|].
  destruct (Step.step_number s =? n) eqn:E.
  - intros [= ->]. exists [], steps. apply Nat.eqb_eq in E.
    repeat split; [constructor | exact E].
  - intros H. destruct (IH H) as (before & after & -> & Hb & Hc).
    exists (s :: before), after. repeat split; [|exact Hc].
    constructor; [now apply Nat.eqb_neq | exact Hb].
Qed.

Lemma replace_first_split n new before cur after :
  Forall (fun s => Step.step_number s <> n) before ->
  Step.step_number cur = n ->
  replace_first_numbered n new (before ++ cur :: after)
    = Some (before ++ new :: after)%list.
Proof.
  intros Hb Hc. induction Hb as [|s before Hs _ IH]; cbn.
  - rewrite Hc, Nat.eqb_refl. reflexivity.
  - apply Nat.eqb_neq in Hs. rewrite Hs, IH. reflexivity.
Qed.

Lemma find_split n before cur after :
  Forall (fun s => Step.step_number s <> n) before ->
  Step.step_number cur = n ->
  find (fun s => Step.step_number s =? n) (before ++ cur :: after) = Some cur.
Proof.
  intros Hb Hc. induction Hb as [|s before Hs _ IH]; cbn.
  - rewrite Hc, Nat.eqb_refl. reflexivity.
  - apply Nat.eqb_neq in Hs. rewrite Hs. exact IH.
Qed.

Lemma latest_from_in best versions :
  In (latest_from best versions) (best :: versions).
Proof.
  revert best. induction versions as [|v versions IH]; intros best; cbn.
  - now left.
  - destruct (_ <? _)%Z.
    + right. apply IH.
    + destruct (IH best) as [H|H]; [now left | right; now right].
Qed.

Lemma latest_from_snoc versions :
  forall best v,
  (StepVersion.timestamp best < StepVersion.timestamp v)%Z ->
  Forall (fun u => (StepVersion.timestamp u < StepVersion.timestamp v)%Z)
    versions ->
  latest_from best (versions ++ [v]) = v.
Proof.
  induction versions as [|u versions IH]; intros best v Hb Hf; cbn.
  - apply Z.ltb_lt in Hb. now rewrite Hb.
  - inversion Hf as [|? ? Hu Hf']; subst.
    destruct (_ <? _)%Z; now apply IH.
Qed.

(** X24.  Undoing a step and then redoing the same step is a round trip:
    when the step is in the session and a version of it was saved by the
    manager, [undo_step] and [redo_step] both return [True], the session
    is again exactly as it was before the undo, and so is the manager,
    redo stack included. *)
Theorem undo_then_redo_restores (n : nat) (cur : Step.t) (sess : Session.t)
    (w : WorkflowManager) :
  first_step_numbered n (Session.steps sess) = Some cur ->
  versions_of n w <> [] ->
  Forall (fun v => Step.step_number (StepVersion.data v)
                   = StepVersion.step_number v) (step_versions w) ->
  let undone := undo_step n sess w in
  let redone := redo_step n (snd undone) (snd (fst undone)) in
  fst (fst undone) = true
  /\ redo_stack (snd (fst undone)) = (redo_stack w ++ [cur])%list
  /\ fst (fst redone) = true
  /\ snd redone = sess
  /\ snd (fst redone) = w.
Proof.
  intros Hcur Hv Hdata. cbv zeta. unfold undo_step.
  destruct (versions_of n w) as [|v versions] eqn:Ev; [contradiction|].
  rewrite Hcur. unfold first_step_numbered in Hcur.
  destruct (first_numbered_split n _ cur Hcur)
    as (before & after & Hsteps & Hb & Hc).
  assert (Hnew : Step.step_number (StepVersion.data (latest_from v versions))
                 = n).
  { assert (Hin := latest_from_in v versions). rewrite <- Ev in Hin.
    unfold versions_of in Hin. apply filter_In in Hin.
    destruct Hin as [Hin Hn]. apply Nat.eqb_eq in Hn.
    rewrite Forall_forall in Hdata. now rewrite (Hdata _ Hin). }
  rewrite Hsteps, (replace_first_split n _ before cur after Hb Hc).
  cbn [fst snd]. unfold redo_step. cbn [redo_stack set_redo_stack].
  rewrite rev_app_distr. cbn [rev app].
  cbn [Session.steps set_steps].
  rewrite (replace_first_split n cur before _ after Hb Hnew).
  cbn [fst snd]. rewrite rev_involutive.
  repeat split.
  - destruct sess. cbn in *. now rewrite Hsteps.
  - destruct w. reflexivity.
Qed.

Lemma undo_then_redo_restores_witness :
  let w := snd (save_step_version (calm 5) 1 "me"
                  (set_steps [note_first] Session.new)
                  WorkflowManager_init) in
  let sess := set_steps [note_edited] Session.new in
  snd (undo_step 1 sess w) = set_steps [note_first] Session.new
  /\ snd (redo_step 1 (snd (undo_step 1 sess w))
            (snd (fst (undo_step 1 sess w)))) = sess.
Proof.
  cbv zeta. split; [reflexivity|].
  refine (proj1 (proj2 (proj2 (proj2
    (undo_then_redo_restores 1 note_edited
       (set_steps [note_edited] Session.new)
       (snd (save_step_version (calm 5) 1 "me"
               (set_steps [note_first] Session.new)
               WorkflowManager_init))
       eq_refl _ _))))).
  - cbn. discriminate.
  - repeat constructor.
Defined.

(** X25.  [undo_step] brings back what [save_step_version] saved: if a
    version of step [n] is saved at a time later than every version kept
    for [n] so far, then, however the session is changed afterwards as
    long as it still has a step numbered [n], undoing [n] returns [True],
    puts the saved step in the place of the first step numbered [n],
    leaves every other step where it was and pushes the replaced step on
    the redo stack. *)
Theorem undo_restores_saved_version (e : Env) (n : nat) (author : string)
    (saved cur : Step.t) (sess sess' : Session.t) (w : WorkflowManager) :
  first_step_numbered n (Session.steps sess) = Some saved ->
  Forall (fun v => (StepVersion.timestamp v < now e)%Z) (versions_of n w) ->
  first_step_numbered n (Session.steps sess') = Some cur ->
  let w1 := snd (save_step_version e n author sess w) in
  let undone := undo_step n sess' w1 in
  fst (fst undone) = true
  /\ redo_stack (snd (fst undone)) = (redo_stack w ++ [cur])%list
  /\ exists before after,
       Session.steps sess' = (before ++ cur :: after)%list
       /\ Forall (fun s => Step.step_number s <> n) before
       /\ Session.steps (snd undone) = (before ++ saved :: after)%list.
Proof.
  intros Hsaved Hts Hcur. cbv zeta.
  unfold save_step_version. rewrite Hsaved. cbn [snd].
  unfold undo_step. rewrite versions_of_snoc.
  cbn [StepVersion.step_number]. rewrite Nat.eqb_refl.
  set (new := {| StepVersion.step_number := n;
                 StepVersion.version := List.length (versions_of n w) + 1;
                 StepVersion.data := saved;
                 StepVersion.timestamp := now e;
                 StepVersion.author := author |}).
  assert (Hlatest :
    match (versions_of n w ++ [new])%list with
    | [] => False
    | v :: versions => latest_from v versions = new
    end).
  { destruct (versions_of n w) as [|v versions]; cbn [app].
    - reflexivity.
    - inversion Hts as [|? ? Hv Hvs]; subst.
      apply latest_from_snoc; assumption. }
  destruct (versions_of n w ++ [new])%list as [|v versions];
    [contradiction|].
  rewrite Hlatest. cbn [StepVersion.data new].
  rewrite Hcur. unfold first_step_numbered in Hcur.
  destruct (first_numbered_split n _ cur Hcur)
    as (before & after & Hsteps & Hb & Hc).
  rewrite Hsteps, (replace_first_split n saved before cur after Hb Hc).
  cbn. repeat split. exists before, after. repeat split. exact Hb.
Qed.

Lemma undo_restores_saved_version_witness :
  let w1 := snd (save_step_version (calm 5) 1 "me"
                   (set_steps [note_first] Session.new)
                   WorkflowManager_init) in
  fst (fst (undo_step 1 (set_steps [note_edited] Session.new) w1)) = true.
Proof.
  cbv zeta.
  refine (proj1 (undo_restores_saved_version (calm 5) 1 "me"
                   note_first note_edited
                   (set_steps [note_first] Session.new)
                   (set_steps [note_edited] Session.new)
                   WorkflowManager_init eq_refl _ eq_refl)).
  constructor.
Defined.

(** * Looking a step up by its number *)

Lemma find_unique_number n steps d :
  NoDup (map Step.step_number steps) ->
  In d steps -> Step.step_number d = n ->
  find (fun s => Step.step_number s =? n) steps = Some d.
Proof.
  induction steps as [|s steps IH]; intros Hn Hin Hd; [destruct Hin|].
  inversion Hn as [|? ? Hnotin Hn']; subst. cbn.
  destruct Hin as [->|Hin].
  - now rewrite Nat.eqb_refl.
  - destruct (Step.step_number s =? Step.step_number d) eqn:E.
    + apply Nat.eqb_eq in E. exfalso. apply Hnotin. rewrite E.
      now apply in_map.
    + now apply IH.
Qed.

(** X26.  On the session of a recorder whose calls were made one after
    the other (no two of them overlapped in time), whatever failed during
    the recording, looking a step up by number ([_get_step_by_number] of
    the video exporter, and the same loop of the workflow manager) finds
    exactly the step of the session that has that number: there is at most
    one, and a number that no step has (never reached, or lost to a failed
    capture) gives [None]. *)
Theorem step_lookup_finds_the_step (calls : list (Env * Call))
    (k : nat) (d : Step.t) :
  let s := run calls __init__ in
  (_get_step_by_number (get_session_data s) k = Some d <->
   In d (steps_of s) /\ Step.step_number d = k)
  /\ first_step_numbered k (steps_of s)
     = _get_step_by_number (get_session_data s) k
  /\ (~ In k (step_numbers s) ->
      _get_step_by_number (get_session_data s) k = None).
Proof.
  cbv zeta. unfold _get_step_by_number, get_session_data,
    first_step_numbered, steps_of, step_numbers.
  assert (Hnum : well_numbered (run calls __init__)).
  { apply run_invariant.
    - intros e c s _. apply well_numbered_call.
    - split; [exact I | constructor]. }
  destruct Hnum as [Ha _]. apply ascending_NoDup in Ha.
  unfold step_numbers, steps_of in Ha.
  split; [|split; [reflexivity|]].
  - split.
    + intros H. apply find_some in H. destruct H as [H1 H2].
      split; [assumption | now apply Nat.eqb_eq].
    + intros [H1 H2]. now apply find_unique_number.
  - intros Hk.
    destruct (find _ _) as [x|] eqn:E; [|reflexivity].
    apply find_some in E. destruct E as [E1 E2]. apply Nat.eqb_eq in E2.
    exfalso. apply Hk. unfold steps_of. rewrite <- E2. now apply in_map.
Qed.

Lemma find_in_numbered steps :
  forall a,
  map Step.step_number steps = seq a (List.length steps) ->
  forall k,
  find (fun s => Step.step_number s =? k) steps
    = if k <? a then None else nth_error steps (k - a).
Proof.
  induction steps as [|s steps IH]; intros a Hm k; cbn [find].
  - destruct (k <? a); [reflexivity | now destruct (k - a)].
  - cbn [map List.length seq] in Hm. injection Hm as Hs Hm. rewrite Hs.
    rewrite (IH (S a) Hm k).
    destruct (Nat.eqb_spec a k) as [->|Hne].
    + rewrite Nat.ltb_irrefl, Nat.sub_diag. reflexivity.
    + destruct (Nat.ltb_spec k a), (Nat.ltb_spec k (S a)); try lia.
      * reflexivity.
      * replace (k - a) with (S (k - S a)) by lia. reflexivity.
Qed.

(** X27.  When the calls of the recording were made one after the other
    (no two of them overlapped in time) and no capture failed, the step
    numbered [k] is the [k]-th step of the session: looking up [k] gives
    the step at position [k - 1] for [k] from 1 to the number of steps,
    and [None] for 0 and for every larger number. *)
Theorem step_lookup_is_position (calls : list (Env * Call)) (k : nat) :
  Forall (fun ec => grabs_ok (fst ec)) calls ->
  let s := run calls __init__ in
  _get_step_by_number (get_session_data s) k
    = if k =? 0 then None else nth_error (steps_of s) (k - 1).
Proof.
  intros Hg. cbv zeta.
  assert (H := step_numbers_contiguous calls Hg).
  unfold _get_step_by_number, get_session_data, step_numbers, steps_of in *.
  rewrite (find_in_numbered _ 1 H k).
  destruct k as [|k]; reflexivity.
Qed.

Lemma step_lookup_is_position_witness :
  let s := run [(calm 0, Start); (calm 1, AddNote "a");
                (calm 2, AddNote "b")] __init__ in
  option_map Step.content (_get_step_by_number (get_session_data s) 2)
    = Some "b".
Proof.
  cbv zeta.
  rewrite (step_lookup_is_position
             [(calm 0, Start); (calm 1, AddNote "a"); (calm 2, AddNote "b")]
             2).
  - reflexivity.
  - repeat constructor.
Defined.

(** * The capture policy *)

Lemma policy_click_events events sc :
  Forall (fun ev => str_in (fst ev) ["click"; "keystroke"] = true) events ->
  policy_after events sc = sc.
Proof.
  intros H. revert sc. induction H as [|ev events Hev _ IH]; intros sc;
    cbn [policy_after fold_left]; [reflexivity|].
  unfold should_capture at 2. rewrite Hev. cbn [snd]. apply IH.
Qed.

(** X28.  The capture policy asks for a capture on every click and
    keystroke without touching what it remembers, and on any other event
    only when the window title differs from the one of the last such
    event.  So of two passive events under the same title the second one
    is not captured, whatever clicks and keystrokes, under whatever
    titles, came in between; a passive event under a different title is
    captured. *)
Theorem capture_once_per_window (p1 p2 title other : string)
    (between : list (string * string)) (self : SmartCapture) :
  str_in p1 ["click"; "keystroke"] = false ->
  str_in p2 ["click"; "keystroke"] = false ->
  Forall (fun ev => str_in (fst ev) ["click"; "keystroke"] = true) between ->
  other <> title ->
  let seen := policy_after ((p1, title) :: between) self in
  fst (should_capture p2 title seen) = false
  /\ snd (should_capture p2 title seen) = seen
  /\ fst (should_capture p2 other seen) = true
  /\ last_window_title (snd (should_capture p2 other seen)) = Some other
  /\ Forall (fun ev => should_capture (fst ev) (snd ev) seen = (true, seen))
       between.
Proof.
  intros H1 H2 Hb Hne. cbv zeta. cbn [policy_after fold_left fst snd].
  fold (policy_after between (snd (should_capture p1 title self))).
  rewrite (policy_click_events _ _ Hb).
  assert (Hseen : last_window_title (snd (should_capture p1 title self))
                  = Some title).
  { unfold should_capture. rewrite H1.
    destruct (last_window_title self) as [t|] eqn:E; [|reflexivity].
    destruct (String.eqb_spec t title) as [->|]; [exact E | reflexivity]. }
  revert Hseen. generalize (snd (should_capture p1 title self)).
  intros seen Hseen. unfold should_capture. rewrite H2, Hseen.
  rewrite String.eqb_refl.
  destruct (String.eqb_spec title other) as [->|_]; [contradiction|].
  repeat split.
  eapply Forall_impl; [|exact Hb]. cbn. intros ev Hev. now rewrite Hev.
Qed.

Lemma capture_once_per_window_witness :
  let seen := policy_after [("idle", "Editor"); ("click", "Browser")]
                SmartCapture_init in
  fst (should_capture "idle" "Editor" seen) = false
  /\ fst (should_capture "idle" "Browser" seen) = true.
Proof.
  cbv zeta.
  destruct (capture_once_per_window "idle" "idle" "Editor" "Browser"
              [("click", "Browser")] SmartCapture_init eq_refl eq_refl)
    as (H1 & _ & H3 & _).
  - repeat constructor.
  - discriminate.
  - split; [exact H1 | exact H3].
Defined.

(** * Window titles *)

Lemma window_title_not_empty e : get_active_window_title e <> "".
Proof.
  unfold get_active_window_title.
  destruct (foreground_window e) as [[|c t]|]; discriminate.
Qed.

Ltac titled H :=
  unfold steps_of in *; cbn;
  first
    [ exact H
    | constructor
    | apply Forall_app; split;
      [ exact H
      | repeat constructor; cbn; apply window_title_not_empty ] ].

Lemma titled_click e x y button s :
  Forall (fun d => Step.application d <> "") (steps_of s) ->
  Forall (fun d => Step.application d <> "")
    (steps_of (snd (_record_click e x y button s))).
Proof.
  intros H. method. tests; titled H.
Qed.

Lemma titled_call e c s :
  Forall (fun d => Step.application d <> "") (steps_of s) ->
  Forall (fun d => Step.application d <> "") (steps_of (after e c s)).
Proof.
  unfold after. destruct c; cbn [call].
  8: { apply (process_queue_rel
                (fun s s' =>
                   Forall (fun d => Step.application d <> "") (steps_of s) ->
                   Forall (fun d => Step.application d <> "") (steps_of s'))).
       - tauto.
       - tauto.
       - intros q s0. unfold steps_of. cbn. tauto.
       - intros. now apply titled_click. }
  all: intros H; method; tests; titled H.
Qed.

(** X29.  Every step of a recorded session names an application: when
    the foreground window has an empty title, or the title cannot be
    read at all, the step is recorded under [Unknown App], never under
    an empty name; so the application set of the statistics holds no
    empty name either. *)
Theorem steps_always_name_an_application (calls : list (Env * Call)) :
  let s := run calls __init__ in
  Forall (fun d => Step.application d <> "") (steps_of s)
  /\ ~ In "" (Statistics.applications (statistics_of s)).
Proof.
  cbv zeta.
  assert (H : Forall (fun d => Step.application d <> "")
                (steps_of (run calls __init__))).
  { apply (run_invariant
             (fun s => Forall (fun d => Step.application d <> "")
                         (steps_of s))).
    - intros e c s _. apply titled_call.
    - constructor. }
  split; [exact H|].
  assert (Ha : applications_of
                 (Statistics.applications (statistics_of (run calls __init__)))
                 (steps_of (run calls __init__))).
  { apply (run_invariant
             (fun s => applications_of
                         (Statistics.applications (statistics_of s))
                         (steps_of s))).
    - intros e c s _. apply applications_call.
    - apply applications_of_nil. }
  destruct Ha as [_ Ha]. intros Hin. apply Ha in Hin.
  destruct Hin as (d & Hd & _ & Happ).
  rewrite Forall_forall in H. now apply (H d Hd).
Qed.
